(** * Bulk-import core of the marketing dashboard: field mapping,
      row validation and the import loop of [FileUploadService]

    The development embeds the TypeScript class [FileUploadService]
    (similarity scoring, header-to-field mapping, tabular validation and the
    sequential per-row import) and proves the properties its specification
    states about it.

    Conventions of the embedding.
    - A JavaScript string is a sequence of UTF-16 code units; the model keeps
      the code units below 256 (one [ascii] each), which covers every header
      and field name the service declares.
    - A JavaScript number met in a cell is [NaN], an infinity or a finite
      rational; quotients of lengths are kept as exact rationals.  The
      engine's division of two lengths is correctly rounded and monotone, and
      0, 1/2 and 1 are doubles, so a score compares with 0, 1/2 and 1 as the
      exact quotient does; two scores compare as their exact quotients do
      for strings shorter than 2^26 code units.
    - A thrown exception (a rejected promise for the [async] methods) is the
      [Throw] outcome of the [result] type. *)

From Stdlib Require Import ZArith QArith Lia Ascii String.
From stdpp Require Import gmap strings list sorting.

Local Open Scope string_scope.
Local Open Scope list_scope.

(** ** Outcomes: a value, or a thrown exception *)

(** What [catch (error)] can tell apart: an [Error] instance with its
    message, or any other thrown value. *)
Inductive exn : Type :=
  | Error (message : string)
  | NonError.

Inductive result (A : Type) : Type :=
  | Ok (a : A)
  | Throw (e : exn).
Arguments Ok {A} a.
Arguments Throw {A} e.

#[global] Instance result_ret : MRet result := fun A a => Ok a.
#[global] Instance result_bind : MBind result := fun A B k r =>
  match r with
  | Ok a => k a
  | Throw e => Throw e
  end.

(** [TypeError: Cannot convert object to primitive value]. *)
Definition TypeError_toPrimitive : exn :=
  Error "Cannot convert object to primitive value".

(** ** Strings *)

Fixpoint string_map (f : ascii -> ascii) (s : string) : string :=
  match s with
  | EmptyString => EmptyString
  | String c s' => String (f c) (string_map f s')
  end.

Fixpoint string_filter (p : ascii -> bool) (s : string) : string :=
  match s with
  | EmptyString => EmptyString
  | String c s' => if p c then String c (string_filter p s') else string_filter p s'
  end.

(** [c.toLowerCase()] on one code unit below 256: A-Z, and the Latin-1
    capitals U+00C0..U+00DE except the multiplication sign U+00D7. *)
Definition lower_unit (c : ascii) : ascii :=
  let n := nat_of_ascii c in
  if (((65 <=? n) && (n <=? 90)) || ((192 <=? n) && (n <=? 222) && negb (n =? 215)))%nat
  then ascii_of_nat (n + 32)
  else c.

Definition toLowerCase (s : string) : string := string_map lower_unit s.

(** The class [[_\s]] of the regular expression: underscore and the white
    space code units (TAB, LF, VT, FF, CR, SPACE, NBSP). *)
Definition is_separator (c : ascii) : bool :=
  let n := nat_of_ascii c in
  ((n =? 95) || ((9 <=? n) && (n <=? 13)) || (n =? 32) || (n =? 160))%nat.

(** [s.includes(f)]. *)
Fixpoint includes (s f : string) : bool :=
  String.prefix f s ||
  match s with
  | EmptyString => false
  | String _ s' => includes s' f
  end.

Definition chars (s : string) : list ascii := list_ascii_of_string s.

(** ** Similarity scorer *)

Section Levenshtein.
Context {A : Type} `{EqDecision A}.

(** The assignment [a[i] = v] on a JavaScript array: in range it
    overwrites, at [i = a.length] it appends, beyond it leaves holes
    (filled here with [hole]). *)
Definition array_set {B} (hole : B) (a : list B) (i : nat) (v : B) : list B :=
  if decide (i < length a) then <[i:=v]> a
  else a ++ replicate (i - length a) hole ++ [v].

(** The read [matrix[i][j]].  A cell that was never written reads as 0
    here; [levenshteinDistance_lev] shows that every cell the loops read
    holds the distance of the two prefixes, so no such read happens. *)
Definition cell (matrix : list (list nat)) (i j : nat) : nat :=
  default 0 (matrix !! i ≫= (.!! j)).

(** The write [matrix[i][j] = v]; it needs the row [matrix[i]]. *)
Definition set_cell (matrix : list (list nat)) (i j v : nat) : list (list nat) :=
  match matrix !! i with
  | Some r => <[i := array_set 0 r j v]> matrix
  | None => matrix
  end.

(** Body of the inner loop of [levenshteinDistance].  [charAt] yields the
    empty string out of range, the [None] of the lookup. *)
Definition lev_step (str1 str2 : list A) (i : nat)
    (matrix : list (list nat)) (j : nat) : list (list nat) :=
  if decide (str2 !! (i - 1) = str1 !! (j - 1))
  then set_cell matrix i j (cell matrix (i - 1) (j - 1))
  else set_cell matrix i j
         ((cell matrix (i - 1) (j - 1) + 1) `min`
          ((cell matrix i (j - 1) + 1) `min` (cell matrix (i - 1) j + 1))).

(** The three loops: the first column [matrix[i] = [i]], the first row
    [matrix[0][j] = j], then the cells row by row. *)
Definition levenshteinDistance (str1 str2 : list A) : nat :=
  let m0 :=
    foldl (fun m i => array_set [] m i [i]) [] (seq 0 (S (length str2))) in
  let m1 :=
    foldl (fun m j => set_cell m 0 j j) m0 (seq 0 (S (length str1))) in
  let m2 :=
    foldl (fun m i => foldl (lev_step str1 str2 i) m (seq 1 (length str1)))
      m1 (seq 1 (length str2)) in
  cell m2 (length str2) (length str1).
End Levenshtein.

Definition calculateSimilarity (str1 str2 : string) : Q :=
  let longer :=
    if (String.length str2 <? String.length str1)%nat then str1 else str2 in
  let shorter :=
    if (String.length str2 <? String.length str1)%nat then str2 else str1 in
  if (String.length longer =? 0)%nat then 1%Q
  else
    let editDistance := levenshteinDistance (chars longer) (chars shorter) in
    (inject_Z (Z.of_nat (String.length longer) - Z.of_nat editDistance)
     / inject_Z (Z.of_nat (String.length longer)))%Q.

(** ** Field mapper *)

Inductive ImportType : Type :=
  | CAMPAIGNS
  | AUDIENCES
  | KEYWORDS
  | CREATIVES
  | BUDGETS.

Definition getRequiredFields (importType : ImportType) : list string :=
  match importType with
  | CAMPAIGNS => ["name"; "platform"; "objective"; "budget"]
  | AUDIENCES => ["name"; "type"; "size"]
  | KEYWORDS => ["keyword"; "match_type"]
  | CREATIVES => ["name"; "type"; "headline"]
  | BUDGETS => ["campaign_id"; "amount"; "type"]
  end.

Definition getTargetFields (importType : ImportType) : list string :=
  match importType with
  | CAMPAIGNS =>
      ["name"; "platform"; "objective"; "status"; "budget"; "budget_type";
       "start_date"; "end_date"]
  | AUDIENCES => ["name"; "type"; "size"; "description"]
  | KEYWORDS => ["keyword"; "match_type"; "bid"; "status"]
  | CREATIVES => ["name"; "type"; "headline"; "description"; "call_to_action"]
  | BUDGETS => ["campaign_id"; "amount"; "type"; "currency"]
  end.

(** [s.toLowerCase().replace(/[_\s]+/g, '')]. *)
Definition normalize (s : string) : string :=
  string_filter (fun c => negb (is_separator c)) (toLowerCase s).

(** The inner [targetFields.forEach]: the pair [(bestMatch, bestScore)]
    after the targets were scanned in order. *)
Definition best_match (targetFields : list string) (normalized : string)
    : string * Q :=
  foldl (fun best target =>
           let targetNormalized := normalize target in
           let score := calculateSimilarity normalized targetNormalized in
           if Qlt_le_dec (snd best) score then (target, score) else best)
        ("", 0%Q) targetFields.

(** The mapping is a plain object [{}] keyed by header; a [gmap] holds its
    own properties.  (The one key an assignment cannot create, [__proto__],
    never passes the threshold: see [proto_header_not_mapped].) *)
Definition generateFieldMapping (headers : list string) (importType : ImportType)
    : gmap string string :=
  let targetFields := getTargetFields importType in
  foldl (fun mapping header =>
           let normalized := normalize header in
           let best := best_match targetFields normalized in
           if Qlt_le_dec (1 # 2) (snd best)
           then <[header := fst best]> mapping
           else mapping)
        ∅ headers.

(** ** Cell values *)

(** A JavaScript number as the validator sees it. *)
Inductive number : Type :=
  | NaN
  | Infinity (negative : bool)
  | Fin (q : Q).

Definition isNaN (n : number) : bool :=
  match n with
  | NaN => true
  | _ => false
  end.

(** [a < b] on numbers; any comparison with [NaN] is false. *)
Definition number_lt (a b : number) : bool :=
  match a, b with
  | NaN, _ | _, NaN => false
  | Infinity true, Infinity true => false
  | Infinity true, _ => true
  | _, Infinity true => false
  | Infinity false, _ => false
  | _, Infinity false => true
  | Fin p, Fin q => if Qlt_le_dec p q then true else false
  end.

(** The values a cell of [rows: any[][]] holds after the CSV, Excel and JSON
    parsers of the service: the primitives, arrays, and plain objects given by
    their own properties.  [JUndefined] is also what indexing a row beyond
    its length yields. *)
#[local] Set Warnings "-register-all".
Inductive jsval : Type :=
  | JNull
  | JUndefined
  | JBool (b : bool)
  | JNum (n : number)
  | JStr (s : string)
  | JArr (items : list jsval)
  | JObj (props : list (string * jsval)).

(** [row[colIndex]]. *)
Definition index (row : list jsval) (colIndex : nat) : jsval :=
  default JUndefined (row !! colIndex).

Definition has_own (key : string) (props : list (string * jsval)) : bool :=
  existsb (fun kv => String.eqb (fst kv) key) props.

(** The conversions and parsers of the JavaScript engine that the validator
    calls and that are not code of the service: [StringToNumber] (behind
    [Number(s)]), the date-string parser behind [Date.parse] (implementation
    defined outside the ISO format) and [Number::toString]. *)
Record Engine : Type := {
  string_to_number : string -> number;
  date_parse : string -> number;
  number_to_string : number -> string;
}.

Section Conversions.
Variable engine : Engine.

(** [ToString(v)].  An array joins its elements with commas ([null] and
    [undefined] as the empty string).  A plain object has no callable
    [valueOf] or [toString] of its own (its own properties are data), so
    [OrdinaryToPrimitive] falls back to [Object.prototype.toString], unless
    an own data property [toString] shadows it: then no method yields a
    primitive and a [TypeError] is thrown. *)
Fixpoint ToString (v : jsval) : result string :=
  match v with
  | JNull => Ok "null"
  | JUndefined => Ok "undefined"
  | JBool true => Ok "true"
  | JBool false => Ok "false"
  | JNum n => Ok (number_to_string engine n)
  | JStr s => Ok s
  | JArr items =>
      (fix join (l : list jsval) : result string :=
         match l with
         | [] => Ok ""
         | x :: rest =>
             s ← match x with
                 | JNull | JUndefined => Ok ""
                 | _ => ToString x
                 end;
             match rest with
             | [] => Ok s
             | _ => r ← join rest; Ok (s +:+ "," +:+ r)
             end
         end) items
  | JObj props =>
      if has_own "toString" props then Throw TypeError_toPrimitive
      else Ok "[object Object]"
  end.

(** [Number(v)]. *)
Definition Number (v : jsval) : result number :=
  match v with
  | JNull => Ok (Fin 0)
  | JUndefined => Ok NaN
  | JBool true => Ok (Fin 1)
  | JBool false => Ok (Fin 0)
  | JNum n => Ok n
  | JStr s => Ok (string_to_number engine s)
  | JArr _ | JObj _ => s ← ToString v; Ok (string_to_number engine s)
  end.

(** [Date.parse(v)]. *)
Definition Date_parse (v : jsval) : result number :=
  s ← ToString v; Ok (date_parse engine s).
End Conversions.

(** Truthiness, as tested by [if (recordId)] and [if (targetField)]. *)
Definition truthy (v : jsval) : bool :=
  match v with
  | JNull | JUndefined => false
  | JBool b => b
  | JNum NaN => false
  | JNum (Infinity _) => true
  | JNum (Fin q) => negb (Qeq_bool q 0)
  | JStr s => negb (String.eqb s "")
  | JArr _ | JObj _ => true
  end.

(** [value === null || value === undefined || value === '']. *)
Definition is_empty (value : jsval) : bool :=
  match value with
  | JNull | JUndefined | JStr "" => true
  | _ => false
  end.

(** ** Row validator *)

Record FileData : Type := {
  headers : list string;
  rows : list (list jsval);
  totalRows : Z;
}.

(** The literals ['required' | 'type' | 'format' | 'range' | 'duplicate']. *)
Inductive ErrorType : Type :=
  | E_required
  | E_type
  | E_format
  | E_range
  | E_duplicate.

Record ValidationError : Type := {
  ve_row : Z;
  ve_column : string;
  ve_value : jsval;
  ve_message : string;
  ve_type : ErrorType;
}.

Record ValidationWarning : Type := {
  vw_row : Z;
  vw_column : string;
  vw_value : jsval;
  vw_message : string;
}.

Record ValidationSummary : Type := {
  vs_totalRows : Z;
  validRows : Z;
  invalidRows : Z;
  errorCount : Z;
  warningCount : Z;
}.

Record ValidationResult : Type := {
  isValid : bool;
  errors : list ValidationError;
  warnings : list ValidationWarning;
  summary : ValidationSummary;
}.

Definition string_in (s : string) (l : list string) : bool :=
  existsb (String.eqb s) l.

Definition isRequiredField (field : string) (importType : ImportType) : bool :=
  string_in field (getRequiredFields importType).

Definition getFieldType (field : string) (importType : ImportType) : string :=
  let numericFields := ["budget"; "amount"; "bid"; "size"] in
  let dateFields := ["start_date"; "end_date"; "created_at"; "updated_at"] in
  if existsb (fun f => includes (toLowerCase field) f) numericFields then "number"
  else if existsb (fun f => includes (toLowerCase field) f) dateFields then "date"
  else "string".

Record Range : Type := { range_min : Q; range_max : Q }.

Definition getFieldRange (field : string) (importType : ImportType)
    : option Range :=
  if includes (toLowerCase field) "budget" || includes (toLowerCase field) "amount"
  then Some {| range_min := 0; range_max := 1000000 |}
  else if includes (toLowerCase field) "bid"
  then Some {| range_min := 0; range_max := 100 |}
  else None.

(** The text [`${range.min}-${range.max}`] of the two ranges. *)
Definition range_text (r : Range) : string :=
  if Qeq_bool (range_max r) 100 then "0-100" else "0-1000000".

Section Validation.
Variable engine : Engine.

Definition validateType (value : jsval) (expectedType : string) : result bool :=
  if String.eqb expectedType "number" then
    match value with
    | JNum _ => Ok true
    | _ => n ← Number engine value; Ok (negb (isNaN n))
    end
  else if String.eqb expectedType "date" then
    n ← Date_parse engine value; Ok (negb (isNaN n))
  else if String.eqb expectedType "string" then
    Ok (match value with JStr _ => true | _ => false end)
  else Ok true.

(** The callback of [headers.forEach] in [validateRow], for one header and
    its column index; [errors] and [warnings] are the two arrays it pushes
    to. *)
Definition validateCell (row : list jsval) (importType : ImportType)
    (rowNumber : Z) (acc : list ValidationError * list ValidationWarning)
    (colIndex : nat) (header : string)
    : result (list ValidationError * list ValidationWarning) :=
  let '(errors, warnings) := acc in
  let value := index row colIndex in
  let errors :=
    if isRequiredField header importType && is_empty value
    then errors ++ [{| ve_row := rowNumber; ve_column := header;
                       ve_value := value;
                       ve_message := "Required field is empty";
                       ve_type := E_required |}]
    else errors in
  let expectedType := getFieldType header importType in
  errors ←
    (if negb (is_empty value) then
       ok ← validateType value expectedType;
       Ok (if ok : bool then errors
           else errors ++ [{| ve_row := rowNumber; ve_column := header;
                              ve_value := value;
                              ve_message :=
                                "Invalid type. Expected " +:+ expectedType;
                              ve_type := E_type |}])
     else Ok errors);
  let warnings :=
    match value with
    | JNum n =>
        if String.eqb expectedType "number" then
          match getFieldRange header importType with
          | Some range =>
              if number_lt n (Fin (range_min range))
                 || number_lt (Fin (range_max range)) n
              then warnings ++
                   [{| vw_row := rowNumber; vw_column := header;
                       vw_value := value;
                       vw_message :=
                         "Value outside expected range ("
                         +:+ range_text range +:+ ")" |}]
              else warnings
          | None => warnings
          end
        else warnings
    | _ => warnings
    end in
  Ok (errors, warnings).

(** [forEach] with the element index, threading the state and stopping at
    the first exception. *)
Fixpoint forEach_from {St X} (f : St -> nat -> X -> result St) (i : nat)
    (l : list X) (s : St) : result St :=
  match l with
  | [] => Ok s
  | x :: l' => s' ← f s i x; forEach_from f (S i) l' s'
  end.

Definition validateRow (row : list jsval) (headers : list string)
    (importType : ImportType) (rowNumber : Z)
    (errors : list ValidationError) (warnings : list ValidationWarning)
    : result (list ValidationError * list ValidationWarning) :=
  forEach_from (validateCell row importType rowNumber) 0 headers
    (errors, warnings).

Definition is_required (e : ValidationError) : bool :=
  match ve_type e with
  | E_required => true
  | _ => false
  end.

Definition performValidation (data : FileData) (importType : ImportType)
    : result ValidationResult :=
  let requiredFields := getRequiredFields importType in
  let errors :=
    foldl (fun errors field =>
             if negb (string_in field (headers data))
             then errors ++ [{| ve_row := 0; ve_column := field;
                                ve_value := JNull;
                                ve_message :=
                                  "Missing required column: " +:+ field;
                                ve_type := E_required |}]
             else errors)
          [] requiredFields in
  '(errors, warnings) ←
    forEach_from (fun acc index row =>
                    validateRow row (headers data) importType
                      (Z.of_nat index + 1) (fst acc) (snd acc))
      0 (rows data) (errors, []);
  let isValid := (length errors =? 0)%nat in
  Ok {| isValid := isValid;
        errors := errors;
        warnings := warnings;
        summary :=
          {| vs_totalRows := totalRows data;
             validRows :=
               totalRows data - Z.of_nat (length (filter is_required errors));
             invalidRows := Z.of_nat (length (filter is_required errors));
             errorCount := Z.of_nat (length errors);
             warningCount := Z.of_nat (length warnings) |} |}.
End Validation.

(** ** Import orchestrator *)

Record ImportError : Type := {
  ie_row : Z;
  ie_data : list jsval;
  ie_error : string;
}.

Record ImportResult : Type := {
  success : bool;
  imported : Z;
  failed : Z;
  skipped : Z;
  ir_errors : list ImportError;
  createdRecords : list jsval;
  updatedRecords : list jsval;
}.

(** The fields of [FileUpload] that [performImport] reads. *)
Record FileUpload : Type := {
  fu_importType : ImportType;
  fu_data : FileData;
}.

(** What the import does to the outside, in order: a request
    [client.post(url, data)] with its outcome (the [response.data.id] it
    resolved with, or the exception of a rejected request or of a response
    without [data]), and a call of the progress callback with its outcome. *)
Inductive event : Type :=
  | Posted (url : string) (data : gmap string jsval) (outcome : result jsval)
  | Progressed (progress : Q) (outcome : result unit).

(** The value of the enum member, lower-cased. *)
Definition importType_toLowerCase (importType : ImportType) : string :=
  match importType with
  | CAMPAIGNS => "campaigns"
  | AUDIENCES => "audiences"
  | KEYWORDS => "keywords"
  | CREATIVES => "creatives"
  | BUDGETS => "budgets"
  end.

(** The mapping and the record are plain objects, read here as their own
    entries: header and field names that collide with a member of
    [Object.prototype] (such as [constructor] or [__proto__]) are outside the
    model. *)
Definition mapRowData (row : list jsval) (headers : list string)
    (mapping : gmap string string) : gmap string jsval :=
  foldl (fun mappedData ih =>
           match mapping !! (snd ih) with
           | Some targetField =>
               if negb (String.eqb targetField "")
               then <[targetField := index row (fst ih)]> mappedData
               else mappedData
           | None => mappedData
           end)
        ∅ (zip (seq 0 (length headers)) headers).

Section Orchestrator.
(** The HTTP client: the outcome of a request may depend on everything
    that happened before it. *)
Variable client_post :
  list event -> string -> gmap string jsval -> result jsval.

Definition importRecord (log : list event) (importType : ImportType)
    (data : gmap string jsval) : result jsval :=
  client_post log ("/import/" +:+ importType_toLowerCase importType) data.

(** The [catch (error)] block of the loop. *)
Definition record_failure (result : ImportResult) (i : nat)
    (row : list jsval) (error : exn) : ImportResult :=
  {| success := success result;
     imported := imported result;
     failed := failed result + 1;
     skipped := skipped result;
     ir_errors :=
       ir_errors result ++
       [{| ie_row := Z.of_nat i + 1;
           ie_data := row;
           ie_error := match error with
                       | Error message => message
                       | NonError => "Unknown error"
                       end |}];
     createdRecords := createdRecords result;
     updatedRecords := updatedRecords result |}.

Definition record_created (result : ImportResult) (recordId : jsval)
    : ImportResult :=
  {| success := success result;
     imported := imported result + 1;
     failed := failed result;
     skipped := skipped result;
     ir_errors := ir_errors result;
     createdRecords := createdRecords result ++ [recordId];
     updatedRecords := updatedRecords result |}.

(** One iteration of [for (let i = 0; i < totalRows; i++)]: the [try]
    block and its [catch].  The progress value is kept as the exact rational
    [(i + 1) / totalRows * 100]; the engine reports its double. *)
Definition import_row (upload : FileUpload) (mapping : gmap string string)
    (onProgress : option (list event -> Q -> result unit))
    (totalRows : nat) (st : ImportResult * list event) (i : nat)
    : ImportResult * list event :=
  let '(result, log) := st in
  let data := fu_data upload in
  let row := default [] (rows data !! i) in
  let mappedData := mapRowData row (headers data) mapping in
  let outcome := importRecord log (fu_importType upload) mappedData in
  let log :=
    log ++ [Posted ("/import/" +:+ importType_toLowerCase (fu_importType upload))
              mappedData outcome] in
  match outcome with
  | Throw error => (record_failure result i row error, log)
  | Ok recordId =>
      let result :=
        if truthy recordId then record_created result recordId else result in
      let progress :=
        (inject_Z (Z.of_nat i + 1) / inject_Z (Z.of_nat totalRows) * 100)%Q in
      match onProgress with
      | None => (result, log)
      | Some callback =>
          let called := callback log progress in
          let log := log ++ [Progressed progress called] in
          match called with
          | Ok _ => (result, log)
          | Throw error => (record_failure result i row error, log)
          end
      end
  end.

Definition performImport (upload : FileUpload) (mapping : gmap string string)
    (onProgress : option (list event -> Q -> result unit))
    (log : list event) : ImportResult * list event :=
  let result :=
    {| success := false; imported := 0; failed := 0; skipped := 0;
       ir_errors := []; createdRecords := []; updatedRecords := [] |} in
  let data := fu_data upload in
  let totalRows := length (rows data) in
  let '(result, log) :=
    foldl (import_row upload mapping onProgress totalRows) (result, log)
      (seq 0 totalRows) in
  ({| success := (failed result =? 0)%Z;
      imported := imported result;
      failed := failed result;
      skipped := skipped result;
      ir_errors := ir_errors result;
      createdRecords := createdRecords result;
      updatedRecords := updatedRecords result |}, log).
End Orchestrator.

(** ** Reading the log *)

Definition posted_outcome (e : event) : option (result jsval) :=
  match e with
  | Posted _ _ outcome => Some outcome
  | Progressed _ _ => None
  end.

(** The outcomes of the submissions, in order. *)
Definition submissions (log : list event) : list (result jsval) :=
  omap posted_outcome log.

(** The records handed to the submissions, in order. *)
Definition submitted (log : list event) : list (gmap string jsval) :=
  omap (fun e => match e with
                 | Posted _ data _ => Some data
                 | Progressed _ _ => None
                 end) log.

(** The values the progress callback was called with, in order. *)
Definition reported (log : list event) : list Q :=
  omap (fun e => match e with
                 | Progressed progress _ => Some progress
                 | Posted _ _ _ => None
                 end) log.

Definition is_ok {A} (r : result A) : bool :=
  match r with
  | Ok _ => true
  | Throw _ => false
  end.

Definition created_id (r : result jsval) : option jsval :=
  match r with
  | Ok recordId => if truthy recordId then Some recordId else None
  | Throw _ => None
  end.

(** ** Edit distance, as the specification words it *)

Section EditDistance.
Context {A : Type} `{EqDecision A}.

(** [edit_script a b n]: [a] is turned into [b] by [n] single-character
    insertions, deletions and substitutions (characters kept cost
    nothing). *)
Inductive edit_script : list A -> list A -> nat -> Prop :=
  | es_done : edit_script [] [] 0
  | es_keep x a b n : edit_script a b n -> edit_script (x :: a) (x :: b) n
  | es_substitute x y a b n :
      edit_script a b n -> edit_script (x :: a) (y :: b) (S n)
  | es_delete x a b n : edit_script a b n -> edit_script (x :: a) b (S n)
  | es_insert y a b n : edit_script a b n -> edit_script a (y :: b) (S n).

(** The minimum number of edits. *)
Definition is_edit_distance (a b : list A) (d : nat) : Prop :=
  edit_script a b d /\ forall n, edit_script a b n -> d <= n.

(** The recurrence the matrix of [levenshteinDistance] follows, on the
    lists themselves. *)
Fixpoint lev (a : list A) : list A -> nat :=
  match a with
  | [] => fun b => length b
  | x :: a' =>
      fix lev_a (b : list A) : nat :=
        match b with
        | [] => S (length a')
        | y :: b' =>
            if decide (x = y) then lev a' b'
            else S (lev a' b' `min` (lev_a b' `min` lev a' b))
        end
  end.
End EditDistance.

(** ** Vocabulary of the statements *)

(** The cell of the table of [levenshteinDistance str1 str2] in row [i]
    and column [j], and its rows. *)
Definition dist {A : Type} `{EqDecision A} (str1 str2 : list A) (i j : nat)
    : nat :=
  lev (rev (take i str2)) (rev (take j str1)).

Definition dist_row {A : Type} `{EqDecision A} (str1 str2 : list A) (i : nat)
    : list nat :=
  map (dist str1 str2 i) (seq 0 (S (length str1))).

(** The score of a normalized header against a target field, and the body of
    the two [forEach] loops of [generateFieldMapping]. *)
Definition score_of (normalized target : string) : Q :=
  calculateSimilarity normalized (normalize target).

Definition best_step (normalized : string) (best : string * Q)
    (target : string) : string * Q :=
  if Qlt_le_dec (snd best) (score_of normalized target)
  then (target, score_of normalized target)
  else best.

Definition mapping_step (importType : ImportType)
    (mapping : gmap string string) (header : string) : gmap string string :=
  let best := best_match (getTargetFields importType) (normalize header) in
  if Qlt_le_dec (1 # 2) (snd best) then <[header := fst best]> mapping
  else mapping.

(** A value converts when [ToString] returns on it: every primitive does,
    and so does every array or object that no own data property [toString]
    makes inconvertible. *)
Definition converts (engine : Engine) (v : jsval) : Prop :=
  is_ok (ToString engine v) = true.

(** The error pushed for an empty required cell. *)
Definition required_error (rowNumber : Z) (header : string) (value : jsval)
    : ValidationError :=
  {| ve_row := rowNumber; ve_column := header; ve_value := value;
     ve_message := "Required field is empty"; ve_type := E_required |}.

(** The two phases of [performValidation] and the record it builds. *)
Definition missing_column_errors (data : FileData) (importType : ImportType)
    : list ValidationError :=
  foldl (fun errors field =>
           if negb (string_in field (headers data))
           then errors ++ [{| ve_row := 0; ve_column := field;
                              ve_value := JNull;
                              ve_message :=
                                "Missing required column: " +:+ field;
                              ve_type := E_required |}]
           else errors)
        [] (getRequiredFields importType).

Definition validate_rows (engine : Engine) (data : FileData)
    (importType : ImportType)
    : result (list ValidationError * list ValidationWarning) :=
  forEach_from (fun acc index row =>
                  validateRow engine row (headers data) importType
                    (Z.of_nat index + 1) (fst acc) (snd acc))
    0 (rows data) (missing_column_errors data importType, []).

Definition validation_result (data : FileData)
    (acc : list ValidationError * list ValidationWarning) : ValidationResult :=
  {| isValid := (length (fst acc) =? 0)%nat;
     errors := fst acc;
     warnings := snd acc;
     summary :=
       {| vs_totalRows := totalRows data;
          validRows :=
            totalRows data - Z.of_nat (length (filter is_required (fst acc)));
          invalidRows := Z.of_nat (length (filter is_required (fst acc)));
          errorCount := Z.of_nat (length (fst acc));
          warningCount := Z.of_nat (length (snd acc)) |} |}.

(** An error entry that blames a number held in a column whose expected
    type is number. *)
Definition blames_numeric_cell (importType : ImportType) (e : ValidationError)
    : Prop :=
  getFieldType (ve_column e) importType = "number" /\
  exists n, ve_value e = JNum n.

Definition blameless (importType : ImportType)
    (errors : list ValidationError) : Prop :=
  forall e, e ∈ errors -> ~ blames_numeric_cell importType e.

(** The warning pushed for a number outside its range. *)
Definition range_warning (rowNumber : Z) (header : string) (n : number)
    (range : Range) : ValidationWarning :=
  {| vw_row := rowNumber; vw_column := header; vw_value := JNum n;
     vw_message := "Value outside expected range ("
                   +:+ range_text range +:+ ")" |}.

(** The progress callback, when there is one, returns normally. *)
Definition callback_returns
    (onProgress : option (list event -> Q -> result unit)) : Prop :=
  forall callback, onProgress = Some callback ->
    forall log progress, is_ok (callback log progress) = true.

(** The record submitted for row [i]. *)
Definition mapped_row (upload : FileUpload) (mapping : gmap string string)
    (i : nat) : gmap string jsval :=
  mapRowData (default [] (rows (fu_data upload) !! i))
    (headers (fu_data upload)) mapping.

(** The value reported after row [i] of [totalRows]. *)
Definition progress_of (totalRows i : nat) : Q :=
  (inject_Z (Z.of_nat i + 1) / inject_Z (Z.of_nat totalRows) * 100)%Q.

Definition count_failed (outcomes : list (result jsval)) : nat :=
  length (filter (fun o => is_ok o = false) outcomes).

(** *** The contribution of one cell *)

(** The error pushed for a cell of the wrong type. *)
Definition type_error (rowNumber : Z) (header : string) (value : jsval)
    (expectedType : string) : ValidationError :=
  {| ve_row := rowNumber; ve_column := header; ve_value := value;
     ve_message := "Invalid type. Expected " +:+ expectedType;
     ve_type := E_type |}.

(** The error pushed for a required column that the headers lack. *)
Definition missing_column_error (field : string) : ValidationError :=
  {| ve_row := 0; ve_column := field; ve_value := JNull;
     ve_message := "Missing required column: " +:+ field;
     ve_type := E_required |}.

(** What one cell adds to the errors and to the warnings. *)
Definition cell_errors (engine : Engine) (importType : ImportType)
    (rowNumber : Z) (header : string) (value : jsval) : list ValidationError :=
  (if isRequiredField header importType && is_empty value
   then [required_error rowNumber header value] else []) ++
  (if negb (is_empty value)
   then match validateType engine value (getFieldType header importType) with
        | Ok false =>
            [type_error rowNumber header value (getFieldType header importType)]
        | _ => []
        end
   else []).

Definition cell_warnings (importType : ImportType) (rowNumber : Z)
    (header : string) (value : jsval) : list ValidationWarning :=
  match value with
  | JNum n =>
      match getFieldRange header importType with
      | Some range =>
          if number_lt n (Fin (range_min range))
             || number_lt (Fin (range_max range)) n
          then [range_warning rowNumber header n range] else []
      | None => []
      end
  | _ => []
  end.

Definition row_errors (engine : Engine) (importType : ImportType)
    (headers : list string) (k : nat) (row : list jsval)
    : list ValidationError :=
  concat (imap (fun i header =>
                  cell_errors engine importType (Z.of_nat k + 1) header
                    (index row i)) headers).

Definition row_warnings (importType : ImportType) (headers : list string)
    (k : nat) (row : list jsval) : list ValidationWarning :=
  concat (imap (fun i header =>
                  cell_warnings importType (Z.of_nat k + 1) header
                    (index row i)) headers).

(** Errors of kind type. *)
Definition is_type_error (e : ValidationError) : bool :=
  match ve_type e with
  | E_type => true
  | _ => false
  end.

(** The entry of the error list for row [i], when its outcome is a
    failure. *)
Definition failure_entry (upload : FileUpload) (io : nat * result jsval)
    : option ImportError :=
  match snd io with
  | Throw error =>
      Some {| ie_row := Z.of_nat (fst io) + 1;
              ie_data := default [] (rows (fu_data upload) !! fst io);
              ie_error := match error with
                          | Error message => message
                          | NonError => "Unknown error"
                          end |}
  | Ok _ => None
  end.

(** ** Sample inputs *)

(** An engine for running the theorems on sample input: its parsers
    recognise no string.  No statement below depends on it. *)
Definition rejecting_engine : Engine :=
  {| string_to_number := fun _ => NaN;
     date_parse := fun _ => NaN;
     number_to_string := fun _ => "NaN" |}.

(** A keyword sheet whose bid, 150, exceeds the range 0-100. *)
Definition bid_sheet : FileData :=
  {| headers := ["keyword"; "match_type"; "bid"];
     rows := [[JStr "shoes"; JStr "exact"; JNum (Fin 150)]];
     totalRows := 1 |}.

(** A campaign sheet without columns and without rows. *)
Definition empty_sheet : FileData :=
  {| headers := []; rows := []; totalRows := 0 |}.

(** A campaign sheet with every required column and one row without cells. *)
Definition blank_row_sheet : FileData :=
  {| headers := ["name"; "platform"; "objective"; "budget"];
     rows := [[]];
     totalRows := 1 |}.


(** The table [parseJSON] yields for the upload
    [[{"budget": {"toString": 1}}]]. *)
Definition toString_sheet : FileData :=
  {| headers := ["budget"];
     rows := [[JObj [("toString", JNum (Fin 1))]]];
     totalRows := 1 |}.

(** A campaign sheet with a short row, an unparseable number and date, an
    array and an object. *)
Definition messy_sheet : FileData :=
  {| headers := ["name"; "budget"; "start_date"];
     rows := [[JStr "spring"; JStr "abc"; JStr "someday"];
              [JNum (Fin 3)];
              [JNull; JArr [JNum (Fin 1); JNull]; JObj [("a", JBool true)]]];
     totalRows := 3 |}.

(** Three campaign rows. *)
Definition campaign_upload : FileUpload :=
  {| fu_importType := CAMPAIGNS;
     fu_data :=
       {| headers := ["name"; "budget"];
          rows := [[JStr "spring"; JNum (Fin 100)];
                   [JStr "summer"; JNum (Fin 200)];
                   [JStr "autumn"; JNum (Fin 300)]];
          totalRows := 3 |} |}.

Definition campaign_mapping : gmap string string :=
  generateFieldMapping (headers (fu_data campaign_upload)) CAMPAIGNS.

(** A server that rejects the second request and answers the others with an
    id made of the campaign name. *)
Definition second_fails (log : list event) (url : string)
    (data : gmap string jsval) : result jsval :=
  if (length (submissions log) =? 1)%nat
  then Throw (Error "Request failed with status code 500")
  else match data !! "name" with
       | Some (JStr s) => Ok (JStr ("id-" +:+ s))
       | _ => Ok (JStr "id")
       end.

(** A server that answers the first request with an empty id, rejects the
    second and answers the third with an id. *)
Definition first_id_empty (log : list event) (url : string)
    (data : gmap string jsval) : result jsval :=
  match length (submissions log) with
  | 0 => Ok (JStr "")
  | 1 => Throw (Error "Request failed with status code 500")
  | _ => Ok (JStr "id-3")
  end.

(** A server whose responses carry an empty id. *)
Definition empty_ids (log : list event) (url : string)
    (data : gmap string jsval) : result jsval :=
  Ok (JStr "").

(** A progress callback that returns normally. *)
Definition quiet_callback (log : list event) (progress : Q) : result unit :=
  Ok tt.

(** A progress callback that throws. *)
Definition throwing_callback (log : list event) (progress : Q) : result unit :=
  Throw (Error "progress listener failed").

(** * Proofs *)

(** ** The matrix of [levenshteinDistance] *)

Section LevenshteinMatrix.
Context {A : Type} `{EqDecision A}.

Lemma lev_nil_r (a : list A) : lev a [] = length a.
Proof. by destruct a. Qed.

Lemma array_set_end {B} (d : B) a v : array_set d a (length a) v = a ++ [v].
Proof.
  unfold array_set. case_decide; [lia|]. by rewrite Nat.sub_diag.
Qed.

Lemma init_rows k : forall acc : list (list nat),
  foldl (fun m i => array_set [] m i [i]) acc (seq (length acc) k)
  = acc ++ map (fun i => [i]) (seq (length acc) k).
Proof.
  induction k as [|k IH]; intros acc; simpl.
  - by rewrite app_nil_r.
  - rewrite array_set_end.
    replace (S (length acc)) with (length (acc ++ [[length acc]]))
      by (rewrite length_app; simpl; lia).
    rewrite IH, <- app_assoc. done.
Qed.

Lemma cell_prev pre (prev : list nat) rest j :
  cell (pre ++ prev :: rest) (length pre) j = default 0 (prev !! j).
Proof.
  unfold cell. by rewrite list_lookup_middle.
Qed.

Lemma cell_cur pre (prev cur : list nat) rest j :
  cell (pre ++ prev :: cur :: rest) (S (length pre)) j = default 0 (cur !! j).
Proof.
  replace (pre ++ prev :: cur :: rest) with ((pre ++ [prev]) ++ cur :: rest)
    by (by rewrite <- app_assoc).
  replace (S (length pre)) with (length (pre ++ [prev]))
    by (rewrite length_app; simpl; lia).
  apply cell_prev.
Qed.

Lemma set_cell_end pre (cur : list nat) rest v :
  set_cell (pre ++ cur :: rest) (length pre) (length cur) v
  = pre ++ (cur ++ [v]) :: rest.
Proof.
  unfold set_cell. rewrite list_lookup_middle by done.
  rewrite array_set_end.
  rewrite insert_app_r_alt by lia. by rewrite Nat.sub_diag.
Qed.

Lemma init_cols k : forall (row : list nat) rest,
  foldl (fun m j => set_cell m 0 j j) (row :: rest) (seq (length row) k)
  = (row ++ seq (length row) k) :: rest.
Proof.
  induction k as [|k IH]; intros row rest; simpl.
  - by rewrite app_nil_r.
  - rewrite (set_cell_end [] row rest). simpl.
    replace (S (length row)) with (length (row ++ [length row]))
      by (rewrite length_app; simpl; lia).
    rewrite IH, <- app_assoc. done.
Qed.

Section Table.
Variables str1 str2 : list A.

Lemma dist_0_l j : j <= length str1 -> dist str1 str2 0 j = j.
Proof.
  intros Hj. unfold dist. simpl. rewrite length_rev, length_take. lia.
Qed.

Lemma dist_0_r i : i <= length str2 -> dist str1 str2 i 0 = i.
Proof.
  intros Hi. unfold dist. rewrite take_0. simpl.
  rewrite lev_nil_r, length_rev, length_take. lia.
Qed.

Lemma dist_S i j x y :
  str2 !! i = Some x -> str1 !! j = Some y ->
  dist str1 str2 (S i) (S j) =
    if decide (x = y) then dist str1 str2 i j
    else S (dist str1 str2 i j `min` (dist str1 str2 (S i) j `min` dist str1 str2 i (S j))).
Proof.
  intros Hx Hy. unfold dist.
  rewrite (take_S_r _ _ _ Hx), (take_S_r _ _ _ Hy), !rev_app_distr.
  simpl. done.
Qed.

Lemma lev_step_dist pre cur rest i j :
  i = length pre -> i < length str2 ->
  j < length str1 ->
  cur = map (dist str1 str2 (S i)) (seq 0 (S j)) ->
  lev_step str1 str2 (S i) (pre ++ dist_row str1 str2 i :: cur :: rest) (S j)
  = pre ++ dist_row str1 str2 i :: map (dist str1 str2 (S i)) (seq 0 (S (S j))) :: rest.
Proof.
  intros -> Hi Hj ->.
  destruct (lookup_lt_is_Some_2 str2 _ Hi) as [x Hx].
  destruct (lookup_lt_is_Some_2 str1 _ Hj) as [y Hy].
  set (cur := map (dist str1 str2 (S (length pre))) (seq 0 (S j))).
  assert (Hlen : length cur = S j) by (unfold cur; by rewrite length_map, length_seq).
  assert (Hend : forall v, set_cell (pre ++ dist_row str1 str2 (length pre) :: cur :: rest)
                   (S (length pre)) (S j) v
                 = pre ++ dist_row str1 str2 (length pre) :: (cur ++ [v]) :: rest).
  { intros v.
    replace (pre ++ dist_row str1 str2 (length pre) :: cur :: rest)
      with ((pre ++ [dist_row str1 str2 (length pre)]) ++ cur :: rest)
      by (by rewrite <- app_assoc).
    replace (S (length pre)) with (length (pre ++ [dist_row str1 str2 (length pre)]))
      by (rewrite length_app; simpl; lia).
    rewrite <- Hlen, set_cell_end, <- app_assoc. done. }
  assert (Hd : forall j', j' <= length str1 ->
             default 0 (dist_row str1 str2 (length pre) !! j') = dist str1 str2 (length pre) j').
  { intros j' Hj'. unfold dist_row.
    rewrite list_lookup_fmap, lookup_seq_lt by lia. done. }
  assert (Hc : forall j', j' <= j ->
             default 0 (cur !! j') = dist str1 str2 (S (length pre)) j').
  { intros j' Hj'. unfold cur.
    rewrite list_lookup_fmap, lookup_seq_lt by lia. done. }
  unfold lev_step.
  replace (S (length pre) - 1) with (length pre) by lia.
  replace (S j - 1) with j by lia.
  rewrite Hx, Hy, !Hend, !cell_prev, !cell_cur, !Hd, !Hc by lia.
  rewrite (seq_S (S j)), map_app. simpl.
  rewrite (dist_S _ _ _ _ Hx Hy).
  destruct (decide (x = y)) as [->|Hne].
  - rewrite decide_True by done. done.
  - rewrite decide_False by congruence.
    assert (E : forall a b c, (a + 1) `min` ((b + 1) `min` (c + 1)) = S (a `min` (b `min` c)))
      by (intros; lia).
    by rewrite E.
Qed.

Lemma fill_row pre rest i k : forall j,
  i = length pre -> i < length str2 ->
  j + k = length str1 ->
  foldl (lev_step str1 str2 (S i))
    (pre ++ dist_row str1 str2 i :: map (dist str1 str2 (S i)) (seq 0 (S j)) :: rest)
    (seq (S j) k)
  = pre ++ dist_row str1 str2 i :: map (dist str1 str2 (S i)) (seq 0 (S (j + k))) :: rest.
Proof.
  induction k as [|k IH]; intros j Hi Hlt Hjk; simpl.
  - by rewrite Nat.add_0_r.
  - rewrite (lev_step_dist pre _ rest i j) by (done || lia).
    rewrite IH by (done || lia).
    by replace (S j + k) with (j + S k) by lia.
Qed.

Lemma fill_rows k : forall pre i,
  i = length pre -> i + k = length str2 ->
  foldl (fun m i' => foldl (lev_step str1 str2 i') m (seq 1 (length str1)))
    (pre ++ dist_row str1 str2 i :: map (fun i' => [i']) (seq (S i) k))
    (seq (S i) k)
  = pre ++ dist_row str1 str2 i :: map (dist_row str1 str2) (seq (S i) k).
Proof.
  induction k as [|k IH]; intros pre i Hi Hik; simpl; [done|].
  replace [S i] with (map (dist str1 str2 (S i)) (seq 0 1))
    by (simpl; rewrite dist_0_r by lia; done).
  rewrite (fill_row pre _ i (length str1) 0) by (done || lia).
  change (map (dist str1 str2 (S i)) (seq 0 (S (0 + length str1)))) with (dist_row str1 str2 (S i)).
  specialize (IH (pre ++ [dist_row str1 str2 i]) (S i)).
  rewrite <- !app_assoc in IH. simpl in IH.
  rewrite IH; [done| rewrite length_app; simpl; lia | lia].
Qed.

Lemma dist_row_0 : dist_row str1 str2 0 = seq 0 (S (length str1)).
Proof.
  unfold dist_row. apply list_eq. intros j.
  rewrite list_lookup_fmap.
  destruct (decide (j < S (length str1))) as [Hj|Hj].
  - rewrite lookup_seq_lt by done. simpl. by rewrite dist_0_l by lia.
  - rewrite lookup_seq_ge by lia. done.
Qed.

Lemma init_table :
  foldl (fun m j => set_cell m 0 j j)
    (foldl (fun m i => array_set [] m i [i]) [] (seq 0 (S (length str2))))
    (seq 0 (S (length str1)))
  = seq 0 (S (length str1)) :: map (fun i => [i]) (seq 1 (length str2)).
Proof.
  rewrite (init_rows _ []). cbn [length app seq map foldl].
  assert (E : forall rest, set_cell ([0] :: rest) 0 0 0 = [0] :: rest) by done.
  rewrite E.
  apply (init_cols (length str1) [0]).
Qed.

Theorem levenshteinDistance_lev :
  levenshteinDistance str1 str2 = lev (rev str2) (rev str1).
Proof.
  unfold levenshteinDistance.
  rewrite init_table, <- dist_row_0.
  pose proof (fill_rows (length str2) [] 0 eq_refl eq_refl) as Hfill.
  cbn [app] in Hfill. rewrite Hfill.
  change (dist_row str1 str2 0 :: map (dist_row str1 str2) (seq 1 (length str2)))
    with (map (dist_row str1 str2) (seq 0 (S (length str2)))).
  unfold cell. rewrite list_lookup_fmap, lookup_seq_lt by lia.
  simpl. unfold dist_row at 1.
  fold (dist_row str1 str2 (length str2)). unfold dist_row.
  rewrite list_lookup_fmap, lookup_seq_lt by lia. simpl.
  unfold dist. by rewrite !firstn_all.
Qed.
End Table.
End LevenshteinMatrix.

(** ** The recurrence computes the edit distance *)

Section EditDistanceFacts.
Context {A : Type} `{EqDecision A}.
Implicit Types a b : list A.

Lemma lev_cons_cons x y a b :
  lev (x :: a) (y :: b) =
    if decide (x = y) then lev a b
    else S (lev a b `min` (lev (x :: a) b `min` lev a (y :: b))).
Proof. reflexivity. Qed.

Lemma lev_nil_l b : lev [] b = length b.
Proof. reflexivity. Qed.

Lemma lev_cons_nil x a : lev (x :: a) [] = S (length a).
Proof. reflexivity. Qed.

Lemma lev_refl a : lev a a = 0.
Proof.
  induction a as [|x a IH]; [done|].
  rewrite lev_cons_cons, decide_True by done. exact IH.
Qed.

Lemma lev_le_max a : forall b, lev a b <= length a `max` length b.
Proof.
  induction a as [|x a IH]; intros b.
  - rewrite lev_nil_l. simpl. lia.
  - induction b as [|y b IHb].
    + rewrite lev_cons_nil. simpl. lia.
    + rewrite lev_cons_cons. specialize (IH b). simpl.
      destruct (decide (x = y)); lia.
Qed.

(** Neighbouring cells of the table differ by at most one. *)
Lemma lev_neighbours n : forall a b, length a + length b <= n ->
  (forall x, lev a b <= S (lev (x :: a) b)) /\
  (forall y, lev a b <= S (lev a (y :: b))) /\
  (forall x, lev (x :: a) b <= S (lev a b)) /\
  (forall y, lev a (y :: b) <= S (lev a b)).
Proof.
  induction n as [|n IH]; intros a b Hn.
  - destruct a, b; simpl in Hn; try lia.
    repeat split; intros; simpl; lia.
  - assert (H3 : forall x, lev (x :: a) b <= S (lev a b)).
    { intros x. destruct b as [|y b'].
      - rewrite lev_cons_nil, lev_nil_r. lia.
      - rewrite lev_cons_cons. destruct (decide (x = y)); [|lia].
        simpl in Hn. destruct (IH a b' ltac:(lia)) as (_ & H2 & _).
        apply H2. }
    assert (H4 : forall y, lev a (y :: b) <= S (lev a b)).
    { intros y. destruct a as [|x a'].
      - rewrite !lev_nil_l. simpl. lia.
      - rewrite lev_cons_cons. destruct (decide (x = y)); [|lia].
        simpl in Hn. destruct (IH a' b ltac:(lia)) as (H1 & _).
        apply H1. }
    repeat split; [| |exact H3|exact H4].
    + intros x. destruct b as [|y b'].
      * rewrite lev_cons_nil, lev_nil_r. lia.
      * simpl in Hn.
        destruct (IH a b' ltac:(lia)) as (H1 & _ & _ & H4').
        rewrite lev_cons_cons. specialize (H1 x). specialize (H4' y).
        destruct (decide (x = y)); lia.
    + intros y. destruct a as [|x a'].
      * rewrite !lev_nil_l. simpl. lia.
      * simpl in Hn.
        destruct (IH a' b ltac:(lia)) as (_ & H2 & H3' & _).
        rewrite lev_cons_cons. specialize (H2 y). specialize (H3' x).
        destruct (decide (x = y)); lia.
Qed.

Lemma lev_delete x a b : lev (x :: a) b <= S (lev a b).
Proof. by apply (lev_neighbours (length a + length b) a b). Qed.

Lemma lev_insert y a b : lev a (y :: b) <= S (lev a b).
Proof. by apply (lev_neighbours (length a + length b) a b). Qed.

(** The recurrence is reached by an edit script ... *)
Lemma lev_script a : forall b, edit_script a b (lev a b).
Proof.
  induction a as [|x a IH]; intros b.
  - rewrite lev_nil_l. induction b as [|y b IHb]; simpl.
    + constructor.
    + by apply es_insert.
  - induction b as [|y b IHb].
    + rewrite lev_cons_nil. apply es_delete.
      specialize (IH []). by rewrite lev_nil_r in IH.
    + rewrite lev_cons_cons. destruct (decide (x = y)) as [->|Hne].
      * apply es_keep, IH.
      * destruct (Nat.min_spec (lev a b) (lev (x :: a) b `min` lev a (y :: b)))
          as [[_ ->]|[_ ->]].
        { apply es_substitute, IH. }
        destruct (Nat.min_spec (lev (x :: a) b) (lev a (y :: b)))
          as [[_ ->]|[_ ->]].
        { by apply es_insert. }
        { apply es_delete, IH. }
Qed.

(** ... and no edit script is shorter. *)
Lemma lev_least a b n : edit_script a b n -> lev a b <= n.
Proof.
  induction 1 as [|x a b n _ IH|x y a b n _ IH|x a b n _ IH|y a b n _ IH].
  - done.
  - by rewrite lev_cons_cons, decide_True.
  - rewrite lev_cons_cons. destruct (decide (x = y)); lia.
  - pose proof (lev_delete x a b). lia.
  - pose proof (lev_insert y a b). lia.
Qed.

Lemma lev_is_edit_distance a b : is_edit_distance a b (lev a b).
Proof. split; [apply lev_script | apply lev_least]. Qed.

Lemma edit_script_sym a b n : edit_script a b n -> edit_script b a n.
Proof. induction 1; by constructor. Qed.

Lemma edit_script_app a b n c d m :
  edit_script a b n -> edit_script c d m ->
  edit_script (a ++ c) (b ++ d) (n + m).
Proof.
  intros Hab Hcd. induction Hab; simpl; [done|by constructor..].
Qed.

Lemma edit_script_rev a b n :
  edit_script a b n -> edit_script (rev a) (rev b) n.
Proof.
  induction 1 as [|x a b n _ IH|x y a b n _ IH|x a b n _ IH|y a b n _ IH];
    simpl.
  - constructor.
  - replace n with (n + 0) by lia.
    apply edit_script_app; [done|]. apply es_keep, es_done.
  - replace (S n) with (n + 1) by lia.
    apply edit_script_app; [done|]. apply es_substitute, es_done.
  - replace (S n) with (n + 1) by lia.
    rewrite <- (app_nil_r (rev b)).
    apply edit_script_app; [done|]. apply es_delete, es_done.
  - replace (S n) with (n + 1) by lia.
    rewrite <- (app_nil_r (rev a)).
    apply edit_script_app; [done|]. apply es_insert, es_done.
Qed.

Lemma is_edit_distance_unique a b d d' :
  is_edit_distance a b d -> is_edit_distance a b d' -> d = d'.
Proof.
  intros [H1 H2] [H1' H2']. apply Nat.le_antisymm; auto.
Qed.

Lemma is_edit_distance_sym a b d :
  is_edit_distance a b d -> is_edit_distance b a d.
Proof.
  intros [H1 H2]. split; [by apply edit_script_sym|].
  intros n Hn. by apply H2, edit_script_sym.
Qed.

Lemma is_edit_distance_rev a b d :
  is_edit_distance (rev a) (rev b) d -> is_edit_distance a b d.
Proof.
  intros [H1 H2]. split.
  - apply edit_script_rev in H1. by rewrite !rev_involutive in H1.
  - intros n Hn. by apply H2, edit_script_rev.
Qed.

(** What the loops of [levenshteinDistance] return is the edit distance
    of the two strings. *)
Lemma levenshteinDistance_is_edit_distance a b :
  is_edit_distance a b (levenshteinDistance a b).
Proof.
  rewrite levenshteinDistance_lev.
  apply is_edit_distance_sym, is_edit_distance_rev, lev_is_edit_distance.
Qed.

Lemma levenshteinDistance_sym a b :
  levenshteinDistance a b = levenshteinDistance b a.
Proof.
  apply (is_edit_distance_unique a b).
  - apply levenshteinDistance_is_edit_distance.
  - apply is_edit_distance_sym, levenshteinDistance_is_edit_distance.
Qed.

Lemma levenshteinDistance_refl a : levenshteinDistance a a = 0.
Proof. rewrite levenshteinDistance_lev. apply lev_refl. Qed.

Lemma levenshteinDistance_le_max a b :
  levenshteinDistance a b <= length a `max` length b.
Proof.
  rewrite levenshteinDistance_lev.
  pose proof (lev_le_max (rev b) (rev a)) as H.
  rewrite !length_rev in H. lia.
Qed.
End EditDistanceFacts.

(** ** Similarity scorer *)

Lemma length_chars (s : string) : length (chars s) = String.length s.
Proof.
  unfold chars. induction s as [|c s IH]; simpl; [done|]. by rewrite IH.
Qed.

Lemma ratio_bounds (n d : nat) :
  0 < n -> d <= n ->
  (0 <= inject_Z (Z.of_nat n - Z.of_nat d) / inject_Z (Z.of_nat n) <= 1)%Q.
Proof.
  intros Hn Hd.
  assert (Hpos : (0 < inject_Z (Z.of_nat n))%Q).
  { rewrite <- (Zlt_Qlt 0). lia. }
  split.
  - apply Qle_shift_div_l; [done|].
    rewrite Qmult_0_l, <- (Zle_Qle 0). lia.
  - apply Qle_shift_div_r; [done|].
    rewrite Qmult_1_l, <- Zle_Qle. lia.
Qed.

Lemma ratio_full (n : nat) :
  0 < n -> (inject_Z (Z.of_nat n - Z.of_nat 0) / inject_Z (Z.of_nat n) == 1)%Q.
Proof.
  intros Hn. rewrite Z.sub_0_r. apply Qmult_inv_r.
  intros H. apply (Qlt_irrefl 0).
  rewrite <- H at 2. rewrite <- (Zlt_Qlt 0). lia.
Qed.

(** The score, with the case analysis on the lengths carried out. *)
Lemma calculateSimilarity_unfold (str1 str2 : string) :
  let m := String.length str1 `max` String.length str2 in
  calculateSimilarity str1 str2 =
    if (m =? 0)%nat then 1%Q
    else (inject_Z (Z.of_nat m
                    - Z.of_nat (levenshteinDistance (chars str1) (chars str2)))
          / inject_Z (Z.of_nat m))%Q.
Proof.
  unfold calculateSimilarity. simpl.
  destruct (Nat.ltb_spec (String.length str2) (String.length str1)) as [Hlt|Hge].
  - by rewrite Nat.max_l by lia.
  - rewrite Nat.max_r by lia.
    by rewrite (levenshteinDistance_sym (chars str2) (chars str1)).
Qed.

Lemma calculateSimilarity_range (a b : string) :
  (0 <= calculateSimilarity a b <= 1)%Q.
Proof.
  rewrite calculateSimilarity_unfold. cbv zeta.
  destruct (Nat.eqb_spec (String.length a `max` String.length b) 0) as [H0|H0].
  - split; [apply Qle_lteq; by left | apply Qle_refl].
  - apply ratio_bounds; [lia|].
    pose proof (levenshteinDistance_le_max (chars a) (chars b)) as H.
    by rewrite !length_chars in H.
Qed.

(** C7. Similarity is symmetric: [calculateSimilarity a b] and
    [calculateSimilarity b a] are the same number, for all strings. *)
Theorem calculateSimilarity_symmetric (a b : string) :
  calculateSimilarity a b = calculateSimilarity b a.
Proof.
  rewrite !calculateSimilarity_unfold. cbv zeta.
  rewrite (Nat.max_comm (String.length b)).
  by rewrite (levenshteinDistance_sym (chars b)).
Qed.

(** C6. Similarity bounds and identity: the score of any two strings lies in
    the closed interval from 0 to 1; a string scores 1 against itself; two
    empty strings score 1; and the score is
    [(max(len a, len b) - d) / max(len a, len b)], where [d] is the edit
    distance of the two strings (the least number of single-character
    insertions, deletions and substitutions turning one into the other). *)
Theorem calculateSimilarity_bounds_identity (a b : string) :
  (0 <= calculateSimilarity a b <= 1)%Q /\
  (calculateSimilarity a a == 1)%Q /\
  calculateSimilarity "" "" = 1%Q /\
  exists d : nat,
    is_edit_distance (chars a) (chars b) d /\
    calculateSimilarity a b =
      if (String.length a `max` String.length b =? 0)%nat then 1%Q
      else (inject_Z (Z.of_nat (String.length a `max` String.length b)
                      - Z.of_nat d)
            / inject_Z (Z.of_nat (String.length a `max` String.length b)))%Q.
Proof.
  split; [|split; [|split]].
  - apply calculateSimilarity_range.
  - rewrite calculateSimilarity_unfold. cbv zeta.
    rewrite Nat.max_id, levenshteinDistance_refl.
    destruct (Nat.eqb_spec (String.length a) 0) as [H0|H0]; [done|].
    apply ratio_full. lia.
  - reflexivity.
  - exists (levenshteinDistance (chars a) (chars b)). split.
    + apply levenshteinDistance_is_edit_distance.
    + apply calculateSimilarity_unfold.
Qed.

(** ** Field mapper *)

Section BestMatch.
Variable normalized : string.

Lemma best_match_foldl targetFields :
  best_match targetFields normalized = foldl (best_step normalized) ("", 0%Q) targetFields.
Proof. reflexivity. Qed.

(** The running best score is the greatest score met so far, or the
    initial one. *)
Lemma best_step_upper targetFields : forall best target,
  target ∈ targetFields ->
  (score_of normalized target <= snd (foldl (best_step normalized) best targetFields))%Q.
Proof.
  assert (Hmono : forall l best, (snd best <= snd (foldl (best_step normalized) best l))%Q).
  { induction l as [|t l IH]; intros best; simpl; [apply Qle_refl|].
    eapply Qle_trans; [|apply IH]. unfold best_step.
    destruct (Qlt_le_dec (snd best) (score_of normalized t)); simpl;
      [by apply Qlt_le_weak | apply Qle_refl]. }
  induction targetFields as [|t l IH]; intros best target Hin.
  - by apply elem_of_nil in Hin.
  - apply elem_of_cons in Hin as [->|Hin]; simpl; [|by apply IH].
    eapply Qle_trans; [|apply Hmono]. unfold best_step.
    destruct (Qlt_le_dec (snd best) (score_of normalized t)); simpl;
      [apply Qle_refl | done].
Qed.

Lemma best_step_attained targetFields : forall best,
  foldl (best_step normalized) best targetFields = best \/
  exists target, target ∈ targetFields /\
    foldl (best_step normalized) best targetFields = (target, score_of normalized target).
Proof.
  induction targetFields as [|t l IH]; intros best; simpl; [by left|].
  destruct (IH (best_step normalized best t)) as [->|(target & Hin & ->)].
  - unfold best_step. destruct (Qlt_le_dec (snd best) (score_of normalized t)).
    + right. exists t. split; [left|done].
    + by left.
  - right. exists target. split; [by right|done].
Qed.

Lemma best_match_threshold targetFields :
  (1 # 2 < snd (best_match targetFields normalized))%Q <->
  exists target, target ∈ targetFields /\ (1 # 2 < score_of normalized target)%Q.
Proof.
  rewrite best_match_foldl. split.
  - intros Hlt.
    destruct (best_step_attained targetFields ("", 0%Q))
      as [Heq|(target & Hin & Heq)]; rewrite Heq in Hlt; simpl in Hlt.
    + discriminate Hlt.
    + by exists target.
  - intros (target & Hin & Hlt).
    eapply Qlt_le_trans; [exact Hlt|]. by apply best_step_upper.
Qed.
End BestMatch.

Lemma generateFieldMapping_foldl headers importType :
  generateFieldMapping headers importType
  = foldl (mapping_step importType) ∅ headers.
Proof. reflexivity. Qed.

Lemma mapping_step_lookup importType header headers :
  forall mapping : gmap string string,
  foldl (mapping_step importType) mapping headers !! header =
    let best := best_match (getTargetFields importType) (normalize header) in
    if Qlt_le_dec (1 # 2) (snd best)
    then (if bool_decide (header ∈ headers) then Some (fst best)
          else mapping !! header)
    else mapping !! header.
Proof.
  cbv zeta. induction headers as [|h l IH]; intros mapping; simpl.
  - by destruct (Qlt_le_dec _ _).
  - rewrite IH. unfold mapping_step. cbv zeta.
    destruct (Qlt_le_dec (1 # 2)
                (snd (best_match (getTargetFields importType) (normalize header))))
      as [Hpass|Hfail].
    + destruct (decide (h = header)) as [->|Hne].
      * rewrite (bool_decide_eq_true_2 (header ∈ header :: l)) by left.
        destruct (Qlt_le_dec _ _) as [_|Hle];
          [|exfalso; by apply (Qle_not_lt _ _ Hle)].
        rewrite lookup_insert_eq. by destruct (bool_decide _).
      * assert (Hl : bool_decide (header ∈ h :: l) = bool_decide (header ∈ l)).
        { apply bool_decide_ext. rewrite elem_of_cons. intuition congruence. }
        rewrite Hl. destruct (bool_decide (header ∈ l)); [done|].
        destruct (Qlt_le_dec _ _); [by rewrite lookup_insert_ne|done].
    + destruct (decide (h = header)) as [->|Hne].
      * destruct (Qlt_le_dec _ _) as [Hlt|_];
          [exfalso; by apply (Qle_not_lt _ _ Hfail)|done].
      * destruct (Qlt_le_dec _ _); [by rewrite lookup_insert_ne|done].
Qed.

(** C3. Mapping threshold: the mapping produced for a list of headers and
    an import kind has an entry for a header exactly when the header is one
    of the source headers and its best similarity score (the greatest score
    of the normalized header against a normalized target field) is strictly
    greater than 0.5; the entry then holds the best match.  So no entry has a
    best score of 0.5 or less, and a header whose best score is 0.5 or less
    is absent. *)
Theorem generateFieldMapping_threshold
    (headers : list string) (importType : ImportType) (header : string) :
  let targetFields := getTargetFields importType in
  let score target := calculateSimilarity (normalize header) (normalize target) in
  let best := best_match targetFields (normalize header) in
  (* the best score is the greatest score over the target fields *)
  ((forall target, target ∈ targetFields -> (score target <= snd best)%Q) /\
   (exists target, target ∈ targetFields /\ (snd best == score target)%Q)) /\
  (* an entry exactly above the threshold *)
  (is_Some (generateFieldMapping headers importType !! header) <->
     header ∈ headers /\ (1 # 2 < snd best)%Q) /\
  (is_Some (generateFieldMapping headers importType !! header) <->
     header ∈ headers /\
     exists target, target ∈ targetFields /\ (1 # 2 < score target)%Q) /\
  (forall targetField,
     generateFieldMapping headers importType !! header = Some targetField ->
     targetField = fst best).
Proof.
  cbv zeta.
  assert (Hlookup := mapping_step_lookup importType header headers ∅).
  rewrite <- generateFieldMapping_foldl in Hlookup. cbv zeta in Hlookup.
  rewrite lookup_empty in Hlookup.
  assert (Hentry :
    is_Some (generateFieldMapping headers importType !! header) <->
    header ∈ headers /\
    (1 # 2 < snd (best_match (getTargetFields importType) (normalize header)))%Q).
  { rewrite Hlookup. destruct (Qlt_le_dec _ _) as [Hlt|Hle].
    - case_bool_decide as Hin.
      + split; [done|]. intros _. by eexists.
      + split; [by intros [? ?]|]. by intros [? _].
    - split; [by intros [? ?]|]. intros [_ Hlt].
      exfalso. by apply (Qle_not_lt _ _ Hle). }
  split; [split|split; [|split]].
  - intros target Hin. rewrite best_match_foldl.
    by apply (best_step_upper (normalize header)).
  - rewrite best_match_foldl.
    destruct (best_step_attained (normalize header) (getTargetFields importType)
                ("", 0%Q)) as [Heq|(target & Hin & ->)]; [|by exists target].
    assert (Hne : exists target, target ∈ getTargetFields importType).
    { destruct importType; eexists; left. }
    destruct Hne as [target Hin]. exists target. split; [done|].
    pose proof (best_step_upper (normalize header) _ ("", 0%Q) _ Hin) as Hup.
    rewrite Heq in *. simpl in *.
    apply Qle_antisym; [|exact Hup].
    apply calculateSimilarity_range.
  - exact Hentry.
  - rewrite Hentry, best_match_threshold. done.
  - intros targetField. rewrite Hlookup.
    destruct (Qlt_le_dec _ _); [|done]. case_bool_decide; [|done]. congruence.
Qed.

(** ** Row validator *)

Lemma string_in_elem (s : string) (l : list string) :
  string_in s l = true <-> s ∈ l.
Proof.
  unfold string_in. rewrite existsb_exists. split.
  - intros (x & Hin & Heq). apply String.eqb_eq in Heq as ->.
    by apply list_elem_of_In.
  - intros Hin. exists s. split; [by apply list_elem_of_In|apply String.eqb_refl].
Qed.

Lemma forEach_from_returns {St X} (f : St -> nat -> X -> result St) (l : list X) :
  (forall s i x, x ∈ l -> exists s', f s i x = Ok s') ->
  forall i s, exists s', forEach_from f i l s = Ok s'.
Proof.
  induction l as [|x l IH]; intros Hf i s; simpl.
  - by eexists.
  - destruct (Hf s i x) as [s1 ->]; [left|]. simpl.
    apply IH. intros s2 j y Hy. apply Hf. by right.
Qed.

(** What a loop keeps ([keep]) and what the iteration at position [j]
    establishes for good ([gain j]). *)
Lemma forEach_from_invariant {St X} (f : St -> nat -> X -> result St)
    (keep : St -> St -> Prop) (gain : nat -> X -> St -> Prop) (l : list X) :
  (forall s, keep s s) ->
  (forall s1 s2 s3, keep s1 s2 -> keep s2 s3 -> keep s1 s3) ->
  (forall s i x s', f s i x = Ok s' -> keep s s' /\ gain i x s') ->
  (forall s s' i x, keep s s' -> gain i x s -> gain i x s') ->
  forall i s s', forEach_from f i l s = Ok s' ->
    keep s s' /\ forall j x, l !! j = Some x -> gain (i + j) x s'.
Proof.
  intros Hrefl Htrans Hstep Hgain.
  induction l as [|x l IH]; intros i s s' Hrun; simpl in Hrun.
  - injection Hrun as <-. split; [done|]. intros j y Hy. by destruct j.
  - destruct (f s i x) as [s1|e] eqn:Hf; simpl in Hrun; [|done].
    destruct (Hstep _ _ _ _ Hf) as [Hk1 Hg1].
    destruct (IH _ _ _ Hrun) as [Hk2 Hg2].
    split; [by eapply Htrans|].
    intros [|j] y Hy; simpl in Hy.
    + injection Hy as <-. rewrite Nat.add_0_r. by eapply Hgain.
    + replace (i + S j) with (S i + j) by lia. by apply Hg2.
Qed.

Section ValidationFacts.
Variable engine : Engine.

Lemma converts_index (row : list jsval) (i : nat) :
  (forall v, v ∈ row -> converts engine v) -> converts engine (index row i).
Proof.
  intros Hrow. unfold index. destruct (row !! i) as [v|] eqn:Hv; simpl.
  - apply Hrow. by eapply list_elem_of_lookup_2.
  - reflexivity.
Qed.

Lemma validateType_returns (value : jsval) (expectedType : string) :
  converts engine value -> exists ok, validateType engine value expectedType = Ok ok.
Proof.
  unfold converts, validateType, Date_parse. intros Hc.
  destruct (String.eqb expectedType "number").
  - destruct value as [| |[|]| | | |]; try by eexists.
    + unfold Number. destruct (ToString engine (JArr items)); simpl;
        [by eexists|done].
    + unfold Number. destruct (ToString engine (JObj props)); simpl;
        [by eexists|done].
  - destruct (String.eqb expectedType "date").
    + destruct (ToString engine value); simpl; [by eexists|done].
    + destruct (String.eqb expectedType "string"); by eexists.
Qed.

Lemma validateCell_returns row importType rowNumber acc colIndex header :
  converts engine (index row colIndex) ->
  exists acc',
    validateCell engine row importType rowNumber acc colIndex header = Ok acc'.
Proof.
  intros Hc. unfold validateCell. destruct acc as [errors warnings].
  destruct (negb (is_empty (index row colIndex))); simpl; [|by eexists].
  destruct (validateType_returns _ (getFieldType header importType) Hc)
    as [ok ->]. simpl. by eexists.
Qed.


Lemma validateRow_returns row headers importType rowNumber errors warnings :
  (forall v, v ∈ row -> converts engine v) ->
  exists acc',
    validateRow engine row headers importType rowNumber errors warnings
    = Ok acc'.
Proof.
  intros Hrow. apply forEach_from_returns. intros acc i header _.
  apply validateCell_returns. by apply converts_index.
Qed.


Lemma performValidation_phases data importType :
  performValidation engine data importType =
    match validate_rows engine data importType with
    | Ok acc => Ok (validation_result data acc)
    | Throw e => Throw e
    end.
Proof.
  unfold performValidation. fold (missing_column_errors data importType).
  fold (validate_rows engine data importType).
  by destruct (validate_rows engine data importType) as [[errors warnings]|e].
Qed.

Lemma validate_rows_returns data importType :
  (forall row v, row ∈ rows data -> v ∈ row -> converts engine v) ->
  exists acc, validate_rows engine data importType = Ok acc.
Proof.
  intros Hc. apply forEach_from_returns. intros acc i row Hrow.
  apply validateRow_returns. intros v Hv. by eapply Hc.
Qed.


Lemma performValidation_returns data importType :
  (forall row v, row ∈ rows data -> v ∈ row -> converts engine v) ->
  exists r, performValidation engine data importType = Ok r.
Proof.
  intros Hc. rewrite performValidation_phases.
  destruct (validate_rows_returns data importType Hc) as [acc ->].
  by eexists.
Qed.

End ValidationFacts.


(** *** Range violations *)

Section RangeFacts.
Variable engine : Engine.
Variable importType : ImportType.

Lemma blameless_app errors e :
  blameless importType errors -> ~ blames_numeric_cell importType e -> blameless importType (errors ++ [e]).
Proof.
  intros Herrors He e' Hin.
  apply elem_of_app in Hin as [Hin|Hin]; [by apply Herrors|].
  by apply list_elem_of_singleton in Hin as ->.
Qed.

Lemma validateCell_blameless row rowNumber acc colIndex header acc' :
  validateCell engine row importType rowNumber acc colIndex header = Ok acc' ->
  blameless importType (fst acc) -> blameless importType (fst acc').
Proof.
  unfold validateCell. destruct acc as [errors warnings]. simpl.
  destruct (is_empty (index row colIndex)) eqn:Hempty; simpl.
  - intros [= <-] Hb. simpl. rewrite andb_true_r.
    destruct (isRequiredField header importType); [|done].
    apply blameless_app; [done|]. intros [_ [n Hn]]. simpl in Hn.
    by rewrite Hn in Hempty.
  - rewrite andb_false_r.
    destruct (validateType engine (index row colIndex)
                (getFieldType header importType)) as [[|]|] eqn:Hty;
      simpl; [| |done].
    + by intros [= <-].
    + intros [= <-] Hb. simpl. apply blameless_app; [done|].
      intros [Hnum [n Hn]]. simpl in Hnum, Hn.
      rewrite Hnum, Hn in Hty. discriminate Hty.
Qed.

Lemma missing_column_errors_blameless data :
  blameless importType (missing_column_errors data importType).
Proof.
  unfold missing_column_errors.
  generalize (getRequiredFields importType). intros fields.
  assert (H : forall acc, blameless importType acc ->
            blameless importType (foldl (fun errors field =>
               if negb (string_in field (headers data))
               then errors ++ [{| ve_row := 0; ve_column := field;
                                  ve_value := JNull;
                                  ve_message :=
                                    "Missing required column: " +:+ field;
                                  ve_type := E_required |}]
               else errors) acc fields)).
  { induction fields as [|f l IH]; intros acc Hacc; simpl; [done|].
    apply IH. destruct (negb (string_in f (headers data))); [|done].
    apply blameless_app; [done|]. by intros [_ [n Hn]]. }
  apply H. intros e He. by apply elem_of_nil in He.
Qed.

Lemma validate_rows_blameless data acc :
  validate_rows engine data importType = Ok acc -> blameless importType (fst acc).
Proof.
  intros Hrun.
  apply (forEach_from_invariant _
           (fun s s' => blameless importType (fst s) -> blameless importType (fst s'))
           (fun _ _ _ => True)) in Hrun; [|auto|auto| |auto].
  - destruct Hrun as [Hkeep _]. apply Hkeep. simpl.
    apply missing_column_errors_blameless.
  - intros s i row s' Hrow. split; [|done].
    apply (forEach_from_invariant _
             (fun s s' => blameless importType (fst s) -> blameless importType (fst s'))
             (fun _ _ _ => True)) in Hrow; [|auto|auto| |auto].
    + by destruct Hrow as [Hkeep _].
    + intros s1 j h s2 Hcell. split; [|done].
      by eapply validateCell_blameless.
Qed.

Lemma getFieldRange_numeric header range :
  getFieldRange header importType = Some range ->
  getFieldType header importType = "number".
Proof.
  unfold getFieldRange, getFieldType. simpl.
  destruct (includes (toLowerCase header) "budget"); [done|].
  destruct (includes (toLowerCase header) "amount"); [done|].
  destruct (includes (toLowerCase header) "bid"); done.
Qed.

Lemma validateCell_number row rowNumber errors warnings colIndex header n range :
  index row colIndex = JNum n ->
  getFieldRange header importType = Some range ->
  validateCell engine row importType rowNumber (errors, warnings)
    colIndex header
  = Ok (errors,
        if number_lt n (Fin (range_min range))
           || number_lt (Fin (range_max range)) n
        then warnings ++ [range_warning rowNumber header n range]
        else warnings).
Proof.
  intros Hn Hrange. unfold validateCell.
  rewrite Hn, Hrange, (getFieldRange_numeric _ _ Hrange). simpl.
  by rewrite andb_false_r.
Qed.
End RangeFacts.

(** C8. Range violations are warnings, not errors: a number held in a
    column whose header contains budget or amount gets a warning exactly
    when it lies outside 0..1000000, one whose header contains bid (and
    neither of the former) exactly when it lies outside 0..100, and the
    errors are left as they were; no error entry of a validation result
    blames a number of a numeric column; and a sheet whose bid is 150, with no
    other problem, is valid with one warning. *)
Theorem range_violation_is_warning
    (engine : Engine) (importType : ImportType) (row : list jsval)
    (rowNumber : Z) (errors0 : list ValidationError)
    (warnings0 : list ValidationWarning) (colIndex : nat) (header : string)
    (n : number) :
  index row colIndex = JNum n ->
  includes (toLowerCase header) "budget" || includes (toLowerCase header) "amount"
    || includes (toLowerCase header) "bid" = true ->
  let range :=
    if includes (toLowerCase header) "budget"
       || includes (toLowerCase header) "amount"
    then {| range_min := 0; range_max := 1000000 |}
    else {| range_min := 0; range_max := 100 |} in
  validateCell engine row importType rowNumber (errors0, warnings0)
    colIndex header
  = Ok (errors0,
        if number_lt n (Fin (range_min range))
           || number_lt (Fin (range_max range)) n
        then warnings0 ++
             [{| vw_row := rowNumber; vw_column := header; vw_value := JNum n;
                 vw_message := "Value outside expected range ("
                               +:+ range_text range +:+ ")" |}]
        else warnings0) /\
  (forall data,
     match performValidation engine data importType with
     | Ok r => forall e, e ∈ errors r -> ~ blames_numeric_cell importType e
     | Throw _ => True
     end) /\
  (exists r, performValidation engine bid_sheet KEYWORDS = Ok r /\
     isValid r = true /\ errors r = [] /\
     warnings r =
       [{| vw_row := 1; vw_column := "bid"; vw_value := JNum (Fin 150);
           vw_message := "Value outside expected range (0-100)" |}]).
Proof.
  intros Hn Hheader range. split; [|split].
  - apply validateCell_number; [done|].
    unfold getFieldRange, range.
    destruct (includes (toLowerCase header) "budget"
              || includes (toLowerCase header) "amount"); [done|].
    simpl in Hheader. by rewrite Hheader.
  - intros data. rewrite performValidation_phases.
    destruct (validate_rows engine data importType) as [acc|e] eqn:Hrun; [|done].
    simpl. by apply validate_rows_blameless in Hrun.
  - eexists. split; [reflexivity|]. by repeat split.
Qed.

(** C9. [validRows] is not a count of valid data rows: the summary sets
    [invalidRows] to the number of required-kind errors and [validRows] to
    [totalRows] minus that number.  That number includes the header-level
    errors of row 0 and counts a data row once per empty required cell: on a
    sheet without rows that lacks the four required columns [validRows] is -4,
    below zero, and [invalidRows] exceeds [totalRows]; on a sheet whose single
    row leaves four required cells empty [invalidRows] is 4. *)
Theorem validRows_can_be_negative (engine : Engine) :
  (forall data importType,
     match performValidation engine data importType with
     | Ok r =>
         invalidRows (summary r)
           = Z.of_nat (length (filter is_required (errors r))) /\
         validRows (summary r) = (totalRows data - invalidRows (summary r))%Z /\
         vs_totalRows (summary r) = totalRows data
     | Throw _ => True
     end) /\
  (exists r, performValidation engine empty_sheet CAMPAIGNS = Ok r /\
     (forall e, e ∈ errors r -> ve_row e = 0%Z) /\
     validRows (summary r) = (-4)%Z /\
     (validRows (summary r) < 0)%Z /\
     (invalidRows (summary r) > vs_totalRows (summary r))%Z) /\
  (exists r, performValidation engine blank_row_sheet CAMPAIGNS = Ok r /\
     (forall e, e ∈ errors r -> ve_row e = 1%Z) /\
     vs_totalRows (summary r) = 1%Z /\
     invalidRows (summary r) = 4%Z /\
     validRows (summary r) = (-3)%Z).
Proof.
  split; [|split].
  - intros data importType. rewrite performValidation_phases.
    by destruct (validate_rows engine data importType).
  - eexists. split; [reflexivity|]. simpl. repeat split; try done.
    intros e He. repeat (apply elem_of_cons in He as [->|He]; [done|]).
    by apply elem_of_nil in He.
  - eexists. split; [reflexivity|]. simpl. repeat split; try done.
    intros e He. repeat (apply elem_of_cons in He as [->|He]; [done|]).
    by apply elem_of_nil in He.
Qed.

(** ** Import orchestrator *)

Section ImportFacts.
Variable client_post :
  list event -> string -> gmap string jsval -> result jsval.
Variable upload : FileUpload.
Variable mapping : gmap string string.
Variable onProgress : option (list event -> Q -> result unit).

Lemma submissions_app log1 log2 :
  submissions (log1 ++ log2) = submissions log1 ++ submissions log2.
Proof. apply omap_app. Qed.

Lemma submitted_app log1 log2 :
  submitted (log1 ++ log2) = submitted log1 ++ submitted log2.
Proof. apply omap_app. Qed.

Lemma reported_app log1 log2 :
  reported (log1 ++ log2) = reported log1 ++ reported log2.
Proof. apply omap_app. Qed.

(** One iteration, when the callback returns: exactly one submission,
    tallied by its outcome; the progress report follows a submission that
    resolved and is skipped after one that threw. *)
Lemma import_row_spec totalRows result log i :
  callback_returns onProgress ->
  exists outcome new,
    import_row client_post upload mapping onProgress totalRows (result, log) i
    = (match outcome with
       | Throw error =>
           record_failure result i
             (default [] (rows (fu_data upload) !! i)) error
       | Ok recordId =>
           if truthy recordId then record_created result recordId else result
       end, log ++ new) /\
    outcome = importRecord client_post log (fu_importType upload) (mapped_row upload mapping i) /\
    submissions new = [outcome] /\
    submitted new = [mapped_row upload mapping i] /\
    reported new =
      (if is_ok outcome && bool_decide (is_Some onProgress)
       then [progress_of totalRows i] else []).
Proof.
  intros Hcb. unfold import_row. fold (mapped_row upload mapping i).
  destruct (importRecord client_post log (fu_importType upload) (mapped_row upload mapping i))
    as [recordId|error] eqn:Hout.
  - destruct onProgress as [callback|] eqn:Hon.
    + specialize (Hcb callback eq_refl).
      match goal with
      | |- context [callback ?l ?p] =>
          specialize (Hcb l p); destruct (callback l p) as [u|e] eqn:Hcall
      end; [|done].
      eexists (Ok recordId), _. rewrite <- app_assoc.
      split; [reflexivity|]. by repeat split.
    + eexists (Ok recordId), _. split; [reflexivity|]. by repeat split.
  - eexists (Throw error), _. split; [reflexivity|]. by repeat split.
Qed.

(** The tallies of a result after the loop ran over the rows [indices]. *)
Lemma import_loop_spec totalRows (indices : list nat) : forall result log,
  callback_returns onProgress ->
  exists new,
    let result' :=
      fst (foldl (import_row client_post upload mapping onProgress totalRows)
             (result, log) indices) in
    snd (foldl (import_row client_post upload mapping onProgress totalRows)
           (result, log) indices) = log ++ new /\
    length (submissions new) = length indices /\
    submitted new = map (mapped_row upload mapping) indices /\
    imported result' =
      (imported result
       + Z.of_nat (length (omap created_id (submissions new))))%Z /\
    failed result' =
      (failed result + Z.of_nat (count_failed (submissions new)))%Z /\
    skipped result' = skipped result /\
    createdRecords result' =
      createdRecords result ++ omap created_id (submissions new) /\
    updatedRecords result' = updatedRecords result /\
    length (ir_errors result') =
      length (ir_errors result) + count_failed (submissions new) /\
    reported new =
      omap (fun io => if is_ok (snd io) && bool_decide (is_Some onProgress)
                      then Some (progress_of totalRows (fst io)) else None)
           (zip indices (submissions new)).
Proof.
  induction indices as [|i indices IH]; intros result log Hcb.
  - exists []. cbv zeta. simpl. rewrite !app_nil_r, !Z.add_0_r, Nat.add_0_r.
    by repeat split.
  - destruct (import_row_spec totalRows result log i Hcb)
      as (outcome & new1 & Hrow & _ & Hsub1 & Hmap1 & Hrep1).
    change (foldl ?f ?a (i :: indices)) with (foldl f (f a i) indices).
    rewrite Hrow.
    match goal with
    | |- context [foldl _ (?r1, _) indices] =>
        destruct (IH r1 (log ++ new1) Hcb) as (new2 & IH')
    end.
    cbv zeta in IH'.
    destruct IH'
      as (Hlog & Hlen & Hmap & Himp & Hfail & Hskip & Hcre & Hupd & Herr & Hrep).
    exists (new1 ++ new2). cbv zeta.
    rewrite Hlog, Himp, Hfail, Hskip, Hcre, Hupd, Herr.
    rewrite reported_app, Hrep1, Hrep.
    rewrite submissions_app, submitted_app, Hsub1, Hmap1, Hmap.
    rewrite <- app_assoc.
    change ([outcome] ++ submissions new2) with (outcome :: submissions new2).
    change ([mapped_row upload mapping i] ++ map (mapped_row upload mapping) indices)
      with (map (mapped_row upload mapping) (i :: indices)).
    cbn [length]. rewrite Hlen.
    assert (Hcons : forall o l,
              omap created_id (o :: l) =
                match created_id o with
                | Some recordId => recordId :: omap created_id l
                | None => omap created_id l
                end) by done.
    rewrite Hcons. unfold count_failed.
    set (created2 := omap created_id (submissions new2)).
    destruct outcome as [recordId|error].
    + rewrite filter_cons_False by done.
      set (failed2 := filter _ (submissions new2)). simpl.
      destruct (truthy recordId); simpl; repeat split; try done; try lia;
        try (by rewrite <- app_assoc);
        by destruct (bool_decide (is_Some onProgress)).
    + rewrite filter_cons_True by done.
      set (failed2 := filter _ (submissions new2)). simpl.
      repeat split; try done; try lia.
      rewrite length_app. simpl. lia.
Qed.

Lemma rows_by_index {X} (d : X) (l : list X) (f : X -> gmap string jsval) :
  map (fun i => f (default d (l !! i))) (seq 0 (length l)) = map f l.
Proof.
  induction l as [|x l IH] using rev_ind; [done|].
  rewrite length_app. cbn [length]. rewrite Nat.add_1_r, seq_S, !map_app.
  cbn [map Nat.add]. rewrite list_lookup_middle by done. cbn [default].
  f_equal.
  rewrite <- IH. apply map_ext_in. intros i Hi. apply in_seq in Hi.
  by rewrite lookup_app_l by lia.
Qed.

Lemma performImport_spec log :
  callback_returns onProgress ->
  exists new,
    let result := fst (performImport client_post upload mapping onProgress log) in
    let outcomes := submissions new in
    snd (performImport client_post upload mapping onProgress log) = log ++ new /\
    length outcomes = length (rows (fu_data upload)) /\
    submitted new =
      map (fun row => mapRowData row (headers (fu_data upload)) mapping)
        (rows (fu_data upload)) /\
    imported result = Z.of_nat (length (omap created_id outcomes)) /\
    failed result = Z.of_nat (count_failed outcomes) /\
    success result = bool_decide (count_failed outcomes = 0) /\
    skipped result = 0%Z /\
    createdRecords result = omap created_id outcomes /\
    length (ir_errors result) = count_failed outcomes /\
    reported new =
      omap (fun io => if is_ok (snd io) && bool_decide (is_Some onProgress)
                      then Some (progress_of (length (rows (fu_data upload)))
                                   (fst io))
                      else None)
           (zip (seq 0 (length (rows (fu_data upload)))) outcomes).
Proof.
  intros Hcb. unfold performImport.
  match goal with
  | |- context [foldl ?f (?r0, log) ?l] =>
      destruct (import_loop_spec (length (rows (fu_data upload))) l r0 log Hcb)
        as (new & Hloop);
      destruct (foldl f (r0, log) l) as [result log'] eqn:Hfold
  end.
  cbv zeta in Hloop. simpl in Hloop.
  destruct Hloop
    as (Hlog & Hlen & Hmap & Himp & Hfail & Hskip & Hcre & Hupd & Herr & Hrep).
  exists new. cbv zeta. simpl.
  rewrite Hlen, length_seq in *. unfold mapped_row in Hmap.
  rewrite (rows_by_index [] (rows (fu_data upload))
             (fun row => mapRowData row (headers (fu_data upload)) mapping))
    in Hmap.
  repeat split; try done; try lia.
  rewrite Hfail. simpl.
  destruct (count_failed (submissions new)) as [|n]; [done|].
  rewrite bool_decide_eq_false_2 by done. by apply Z.eqb_neq.
Qed.

(** A submission that resolves with a falsy id leaves the result as it
    was. *)
Lemma import_row_falsy totalRows result log i recordId :
  callback_returns onProgress ->
  importRecord client_post log (fu_importType upload) (mapped_row upload mapping i)
    = Ok recordId ->
  truthy recordId = false ->
  fst (import_row client_post upload mapping onProgress totalRows
         (result, log) i) = result.
Proof.
  intros Hcb Hout Hfalsy.
  destruct (import_row_spec totalRows result log i Hcb)
    as (outcome & new & -> & -> & _).
  by rewrite Hout, Hfalsy.
Qed.

Lemma import_loop_falsy totalRows (indices : list nat) :
  callback_returns onProgress ->
  (forall log url data, exists recordId,
     client_post log url data = Ok recordId /\ truthy recordId = false) ->
  forall result log,
    fst (foldl (import_row client_post upload mapping onProgress totalRows)
           (result, log) indices) = result.
Proof.
  intros Hcb Hfalsy. induction indices as [|i indices IH]; intros result log;
    [done|].
  change (foldl ?f ?a (i :: indices)) with (foldl f (f a i) indices).
  destruct (Hfalsy log
              ("/import/" +:+ importType_toLowerCase (fu_importType upload))
              (mapped_row upload mapping i)) as (recordId & Hout & Hid).
  pose proof (import_row_falsy totalRows result log i recordId Hcb Hout Hid)
    as Hrow.
  destruct (import_row client_post upload mapping onProgress totalRows
              (result, log) i) as [result1 log1].
  simpl in Hrow. subst result1. apply IH.
Qed.
End ImportFacts.

(** C1 (as amended). Partial-failure import: for every table and mapping,
    whatever rows the submission fails on, [performImport] submits every row
    once and in order (a failure never stops the later rows), returns
    [imported] equal to the number of rows whose submission resolved with a
    truthy record id, [failed] equal to the number of rows whose submission
    failed, [success] true exactly when no row failed, and [createdRecords]
    holding the truthy ids of the resolved rows in order.  (The progress
    callback, if one is passed, is taken to return normally.) *)
Theorem performImport_partial_failure
    (client_post : list event -> string -> gmap string jsval -> result jsval)
    (upload : FileUpload) (mapping : gmap string string)
    (onProgress : option (list event -> Q -> result unit)) (log : list event) :
  callback_returns onProgress ->
  exists new,
    let result := fst (performImport client_post upload mapping onProgress log) in
    let outcomes := submissions new in
    snd (performImport client_post upload mapping onProgress log) = log ++ new /\
    length outcomes = length (rows (fu_data upload)) /\
    submitted new =
      map (fun row => mapRowData row (headers (fu_data upload)) mapping)
        (rows (fu_data upload)) /\
    imported result = Z.of_nat (length (omap created_id outcomes)) /\
    failed result = Z.of_nat (count_failed outcomes) /\
    success result = (failed result =? 0)%Z /\
    success result = bool_decide (count_failed outcomes = 0) /\
    createdRecords result = omap created_id outcomes.
Proof.
  intros Hcb.
  destruct (performImport_spec client_post upload mapping onProgress log Hcb)
    as (new & Hspec).
  cbv zeta in Hspec.
  destruct Hspec as (Hlog & Hlen & Hmap & Himp & Hfail & Hsucc & _ & Hcre & _).
  exists new. cbv zeta. repeat split; try done.
  rewrite Hsucc, Hfail.
  destruct (count_failed (submissions new)) as [|n]; [done|].
  rewrite bool_decide_eq_false_2 by done. symmetry. by apply Z.eqb_neq.
Qed.

(** C10 (as amended). When the progress callback, if one is passed, returns
    normally, a row whose submission resolves but yields a falsy record id
    (the empty string, [null], [undefined]) is counted in none of [imported],
    [failed], [skipped] and adds nothing to [createdRecords] or the errors:
    the iteration leaves the result as it was.  So when every submission
    resolves with a falsy id, the counts are all zero, whatever the number of
    rows, and [success] is true. *)
Theorem falsy_record_id_is_dropped
    (client_post : list event -> string -> gmap string jsval -> result jsval)
    (upload : FileUpload) (mapping : gmap string string)
    (onProgress : option (list event -> Q -> result unit)) :
  callback_returns onProgress ->
  (forall totalRows result log i recordId,
     importRecord client_post log (fu_importType upload)
       (mapRowData (default [] (rows (fu_data upload) !! i))
          (headers (fu_data upload)) mapping) = Ok recordId ->
     truthy recordId = false ->
     fst (import_row client_post upload mapping onProgress totalRows
            (result, log) i) = result) /\
  ((forall log url data, exists recordId,
      client_post log url data = Ok recordId /\ truthy recordId = false) ->
   forall log,
     let result := fst (performImport client_post upload mapping onProgress log) in
     success result = true /\
     imported result = 0%Z /\ failed result = 0%Z /\ skipped result = 0%Z /\
     createdRecords result = [] /\ ir_errors result = [] /\
     (rows (fu_data upload) <> [] ->
      (imported result + failed result + skipped result
       < Z.of_nat (length (rows (fu_data upload))))%Z)).
Proof.
  intros Hcb. split.
  - intros totalRows result log i recordId Hout Hfalsy.
    by eapply import_row_falsy.
  - intros Hfalsy log. cbv zeta. unfold performImport.
    match goal with
    | |- context [foldl ?f (?r0, log) ?l] =>
        pose proof (import_loop_falsy client_post upload mapping onProgress
                      (length (rows (fu_data upload))) l Hcb Hfalsy r0 log)
          as Hloop;
        destruct (foldl f (r0, log) l) as [result log'] eqn:Hfold
    end.
    simpl in Hloop. subst result. simpl. repeat split; try done.
    intros Hrows. destruct (rows (fu_data upload)); [done|]. simpl. lia.
Qed.

Lemma no_callback_returns : callback_returns None.
Proof. intros callback Hc. discriminate Hc. Qed.

Lemma quiet_callback_returns : callback_returns (Some quiet_callback).
Proof. intros callback [= <-] log progress. reflexivity. Qed.

(** Three rows, the second failing: two imported, one failed, no success,
    both ids recorded, three submissions. *)
Lemma performImport_partial_failure_witness :
  (exists new,
     snd (performImport second_fails campaign_upload campaign_mapping None [])
       = [] ++ new /\
     length (submissions new) = 3 /\
     imported (fst (performImport second_fails campaign_upload
                      campaign_mapping None []))
       = Z.of_nat (length (omap created_id (submissions new)))) /\
  let result :=
    fst (performImport second_fails campaign_upload campaign_mapping None []) in
  imported result = 2%Z /\ failed result = 1%Z /\ success result = false /\
  createdRecords result = [JStr "id-spring"; JStr "id-autumn"].
Proof.
  split.
  - destruct (performImport_partial_failure second_fails campaign_upload
                campaign_mapping None [] no_callback_returns)
      as (new & Hlog & Hlen & _ & Himp & _).
    exists new. split; [exact Hlog|]. split; [exact Hlen|exact Himp].
  - vm_compute. repeat split; reflexivity.
Defined.

(** The claim C1 as stated fails: of three rows, the first and the third are
    submitted successfully and the second fails, yet [imported] is 1, not 2,
    and the id the first row resolved with is not in [createdRecords]. *)
Lemma imported_misses_resolved_row :
  let run :=
    performImport first_id_empty campaign_upload campaign_mapping None [] in
  submissions (snd run)
    = [Ok (JStr ""); Throw (Error "Request failed with status code 500");
       Ok (JStr "id-3")] /\
  length (filter (fun o => is_ok o = true) (submissions (snd run))) = 2 /\
  imported (fst run) = 1%Z /\
  failed (fst run) = 1%Z /\
  createdRecords (fst run) = [JStr "id-3"].
Proof. vm_compute. repeat split; reflexivity. Qed.

Lemma falsy_record_id_is_dropped_witness :
  let result :=
    fst (performImport empty_ids campaign_upload campaign_mapping None []) in
  success result = true /\
  imported result = 0%Z /\ failed result = 0%Z /\ skipped result = 0%Z /\
  createdRecords result = [] /\ ir_errors result = [] /\
  (imported result + failed result + skipped result < 3)%Z.
Proof.
  destruct (falsy_record_id_is_dropped empty_ids campaign_upload
              campaign_mapping None no_callback_returns) as [_ Hall].
  destruct (Hall (fun log url data => ex_intro _ (JStr "") (conj eq_refl eq_refl))
              []) as (H1 & H2 & H3 & H4 & H5 & H6 & H7).
  cbv zeta.
  assert (Hrows : rows (fu_data campaign_upload) <> []) by discriminate.
  exact (conj H1 (conj H2 (conj H3 (conj H4 (conj H5 (conj H6 (H7 Hrows))))))).
Defined.

(** C4. The progress callback is not invoked after a row whose submission
    fails: with three rows and the second submission rejected, all three rows
    are submitted but the callback is called twice only, with 1/3 * 100 and
    3/3 * 100; the report for the second row, 2/3 * 100, is missing. *)
Theorem progress_skipped_after_failed_row :
  let run :=
    performImport second_fails campaign_upload campaign_mapping
      (Some quiet_callback) [] in
  length (submissions (snd run)) = 3 /\
  failed (fst run) = 1%Z /\
  length (reported (snd run)) = 2 /\
  Forall2 Qeq (reported (snd run)) [(100 # 3)%Q; 100%Q].
Proof.
  vm_compute. repeat split; try reflexivity.
  repeat constructor.
Qed.

(** The claim C5 as stated fails: on the table of the JSON upload
    [[{"budget": {"toString": 1}}]] the type check calls [Number] on the
    cell, which throws, and so does [performValidation], whatever the
    engine's parsers are. *)
Lemma inconvertible_cell_throws :
  (exists e, forall engine,
     performValidation engine toString_sheet CAMPAIGNS = Throw e) /\
  ~ (exists engine r, performValidation engine toString_sheet CAMPAIGNS = Ok r).
Proof.
  split.
  - exists TypeError_toPrimitive. intros engine. reflexivity.
  - intros (engine & r & Hr). discriminate Hr.
Qed.



Lemma range_violation_is_warning_witness :
  validateCell rejecting_engine [JStr "shoes"; JStr "exact"; JNum (Fin 150)]
    KEYWORDS 1 ([], []) 2 "bid"
  = Ok ([],
        [{| vw_row := 1; vw_column := "bid"; vw_value := JNum (Fin 150);
            vw_message := "Value outside expected range (0-100)" |}]).
Proof.
  destruct (range_violation_is_warning rejecting_engine KEYWORDS
              [JStr "shoes"; JStr "exact"; JNum (Fin 150)] 1 [] [] 2 "bid"
              (Fin 150) eq_refl eq_refl) as [Hcell _].
  exact Hcell.
Defined.

(** The key [__proto__], which an assignment to a plain object does not
    create, is never assigned: its best score stays below the threshold for
    every import kind. *)
Lemma proto_header_not_mapped (headers : list string) (importType : ImportType) :
  generateFieldMapping headers importType !! "__proto__" = None.
Proof.
  rewrite generateFieldMapping_foldl, mapping_step_lookup. cbv zeta.
  rewrite lookup_empty.
  destruct importType;
    (destruct (Qlt_le_dec _ _) as [H|_]; [by vm_compute in H|done]).
Qed.

(** * Further properties of the service *)

(** ** The edit distance is a metric *)

Section MetricFacts.
Context {A : Type} `{EqDecision A}.
Implicit Types a b c : list A.

Lemma edit_script_trans b c m :
  edit_script b c m -> forall a n, edit_script a b n ->
  exists k, k <= n + m /\ edit_script a c k.
Proof.
  induction 1 as [|x b c m Hbc IH|x y b c m Hbc IH|x b c m Hbc IH|y b c m Hbc IH];
    intros a n Hab.
  - exists n. split; [lia|done].
  - remember (x :: b) as xb eqn:Hxb.
    induction Hab as [|x' a' b' n' Hab' _|x' y' a' b' n' Hab' _
                      |x' a' b' n' Hab' IHdel|y' a' b' n' Hab' _];
      try discriminate Hxb.
    + injection Hxb as -> ->. destruct (IH _ _ Hab') as (k & Hk & Hs).
      exists k. split; [lia|by constructor].
    + injection Hxb as -> ->. destruct (IH _ _ Hab') as (k & Hk & Hs).
      exists (S k). split; [lia|by constructor].
    + destruct (IHdel Hxb) as (k & Hk & Hs).
      exists (S k). split; [lia|by constructor].
    + injection Hxb as -> ->. destruct (IH _ _ Hab') as (k & Hk & Hs).
      exists (S k). split; [lia|by constructor].
  - remember (x :: b) as xb eqn:Hxb.
    induction Hab as [|x' a' b' n' Hab' _|x' y' a' b' n' Hab' _
                      |x' a' b' n' Hab' IHdel|y' a' b' n' Hab' _];
      try discriminate Hxb.
    + injection Hxb as -> ->. destruct (IH _ _ Hab') as (k & Hk & Hs).
      exists (S k). split; [lia|by constructor].
    + injection Hxb as -> ->. destruct (IH _ _ Hab') as (k & Hk & Hs).
      exists (S k). split; [lia|by constructor].
    + destruct (IHdel Hxb) as (k & Hk & Hs).
      exists (S k). split; [lia|by constructor].
    + injection Hxb as -> ->. destruct (IH _ _ Hab') as (k & Hk & Hs).
      exists (S k). split; [lia|by constructor].
  - remember (x :: b) as xb eqn:Hxb.
    induction Hab as [|x' a' b' n' Hab' _|x' y' a' b' n' Hab' _
                      |x' a' b' n' Hab' IHdel|y' a' b' n' Hab' _];
      try discriminate Hxb.
    + injection Hxb as -> ->. destruct (IH _ _ Hab') as (k & Hk & Hs).
      exists (S k). split; [lia|by constructor].
    + injection Hxb as -> ->. destruct (IH _ _ Hab') as (k & Hk & Hs).
      exists (S k). split; [lia|by constructor].
    + destruct (IHdel Hxb) as (k & Hk & Hs).
      exists (S k). split; [lia|by constructor].
    + injection Hxb as -> ->. destruct (IH _ _ Hab') as (k & Hk & Hs).
      exists k. split; [lia|done].
  - destruct (IH _ _ Hab) as (k & Hk & Hs).
    exists (S k). split; [lia|by constructor].
Qed.

(** X1. The edit distance obeys the triangle inequality: the distance from
    [a] to [c] is at most the distance from [a] to [b] plus the distance
    from [b] to [c]. *)
Theorem levenshteinDistance_triangle a b c :
  levenshteinDistance a c <= levenshteinDistance a b + levenshteinDistance b c.
Proof.
  destruct (levenshteinDistance_is_edit_distance a b) as [Hab _].
  destruct (levenshteinDistance_is_edit_distance b c) as [Hbc _].
  destruct (levenshteinDistance_is_edit_distance a c) as [_ Hac].
  destruct (edit_script_trans _ _ _ Hbc _ _ Hab) as (k & Hk & Hs).
  specialize (Hac k Hs). lia.
Qed.

Lemma edit_script_length a b n :
  edit_script a b n -> length a <= length b + n /\ length b <= length a + n.
Proof. induction 1; simpl; lia. Qed.

Lemma edit_script_zero a b : edit_script a b 0 -> a = b.
Proof.
  remember 0 as n eqn:Hn. induction 1; try discriminate Hn; [done|].
  f_equal. auto.
Qed.

Lemma levenshteinDistance_zero a b : levenshteinDistance a b = 0 <-> a = b.
Proof.
  split.
  - intros H0. destruct (levenshteinDistance_is_edit_distance a b) as [Hs _].
    rewrite H0 in Hs. by apply edit_script_zero.
  - intros ->. apply levenshteinDistance_refl.
Qed.

Lemma levenshteinDistance_length a b :
  length a <= length b + levenshteinDistance a b /\
  length b <= length a + levenshteinDistance a b.
Proof.
  destruct (levenshteinDistance_is_edit_distance a b) as [Hs _].
  by apply edit_script_length.
Qed.
End MetricFacts.

(** ** Scores *)

Lemma chars_inj (a b : string) : chars a = chars b -> a = b.
Proof.
  unfold chars. intros H.
  rewrite <- (string_of_list_ascii_of_string a), H.
  apply string_of_list_ascii_of_string.
Qed.

Lemma ratio_gt_half (m d : nat) :
  0 < m -> d <= m ->
  ((1 # 2) < inject_Z (Z.of_nat m - Z.of_nat d) / inject_Z (Z.of_nat m))%Q
  <-> 2 * d < m.
Proof.
  intros Hm Hd.
  assert (Hpos : (0 < inject_Z (Z.of_nat m))%Q).
  { rewrite <- (Zlt_Qlt 0). lia. }
  split.
  - intros Hlt. destruct (Nat.lt_ge_cases (2 * d) m) as [|Hge]; [done|].
    exfalso. apply (Qlt_not_le _ _ Hlt).
    apply Qle_shift_div_r; [done|].
    unfold Qle, Qmult, inject_Z. simpl. lia.
  - intros Hlt. apply Qlt_shift_div_l; [done|].
    unfold Qlt, Qmult, inject_Z. simpl. lia.
Qed.

Lemma ratio_one (m d : nat) :
  0 < m -> d <= m ->
  (inject_Z (Z.of_nat m - Z.of_nat d) / inject_Z (Z.of_nat m) == 1)%Q
  <-> d = 0.
Proof.
  intros Hm Hd.
  assert (Hpos : (0 < inject_Z (Z.of_nat m))%Q).
  { rewrite <- (Zlt_Qlt 0). lia. }
  split.
  - intros Heq. destruct d as [|d]; [done|]. exfalso.
    assert (Hlt : (inject_Z (Z.of_nat m - Z.of_nat (S d))
                   / inject_Z (Z.of_nat m) < 1)%Q).
    { apply Qlt_shift_div_r; [done|].
      rewrite Qmult_1_l, <- Zlt_Qlt. lia. }
    rewrite Heq in Hlt. by apply Qlt_irrefl in Hlt.
  - intros ->. by apply ratio_full.
Qed.

Lemma levenshteinDistance_chars_le (a b : string) :
  levenshteinDistance (chars a) (chars b)
  <= String.length a `max` String.length b.
Proof.
  pose proof (levenshteinDistance_le_max (chars a) (chars b)) as H.
  by rewrite !length_chars in H.
Qed.

Lemma calculateSimilarity_one (a b : string) :
  (calculateSimilarity a b == 1)%Q <-> a = b.
Proof.
  rewrite calculateSimilarity_unfold. cbv zeta.
  destruct (Nat.eqb_spec (String.length a `max` String.length b) 0) as [H0|H0].
  - split; [|done]. intros _.
    destruct a, b; simpl in H0; try done; lia.
  - rewrite ratio_one by (lia || apply levenshteinDistance_chars_le).
    rewrite levenshteinDistance_zero. split; [apply chars_inj|by intros ->].
Qed.

(** X2. The score is 1 exactly on equal strings. *)
Theorem calculateSimilarity_one_iff_equal (a b : string) :
  (calculateSimilarity a b == 1)%Q <-> a = b.
Proof. apply calculateSimilarity_one. Qed.

(** X3. A score above one half needs lengths within a factor of two. *)
Theorem calculateSimilarity_length_window (a b : string) :
  ((1 # 2) < calculateSimilarity a b)%Q ->
  String.length a < 2 * String.length b /\
  String.length b < 2 * String.length a
  \/ (a = "" /\ b = "").
Proof.
  rewrite calculateSimilarity_unfold. cbv zeta.
  destruct (Nat.eqb_spec (String.length a `max` String.length b) 0) as [H0|H0].
  - intros _. right. destruct a, b; simpl in H0; try done; lia.
  - rewrite ratio_gt_half by (lia || apply levenshteinDistance_chars_le).
    intros Hlt. left.
    pose proof (levenshteinDistance_length (chars a) (chars b)) as [H1 H2].
    rewrite !length_chars in H1, H2. lia.
Qed.

Lemma calculateSimilarity_length_window_witness :
  String.length "budget" < 2 * String.length "budgets" /\
  String.length "budgets" < 2 * String.length "budget"
  \/ ("budget" = "" /\ "budgets" = "").
Proof.
  apply (calculateSimilarity_length_window "budget" "budgets").
  vm_compute. reflexivity.
Defined.

(** ** Best match *)

Lemma best_step_mono normalized targetFields : forall best,
  (snd best <= snd (foldl (best_step normalized) best targetFields))%Q.
Proof.
  induction targetFields as [|t l IH]; intros best; simpl; [apply Qle_refl|].
  eapply Qle_trans; [|apply IH]. unfold best_step.
  destruct (Qlt_le_dec (snd best) (score_of normalized t)); simpl;
    [by apply Qlt_le_weak | apply Qle_refl].
Qed.

(** The scan keeps the first target of greatest score, if any beats the
    initial score. *)
Lemma best_step_first_greatest normalized targetFields best :
  let r := foldl (best_step normalized) best targetFields in
  (r = best /\
   forall t, t ∈ targetFields -> (score_of normalized t <= snd best)%Q) \/
  (exists l1 l2,
     targetFields = l1 ++ fst r :: l2 /\
     snd r = score_of normalized (fst r) /\
     (snd best < snd r)%Q /\
     (forall t, t ∈ l1 -> (score_of normalized t < snd r)%Q) /\
     (forall t, t ∈ l2 -> (score_of normalized t <= snd r)%Q)).
Proof.
  cbv zeta. induction targetFields as [|t l IH] using rev_ind.
  - left. split; [done|]. intros t Ht. by apply elem_of_nil in Ht.
  - rewrite foldl_snoc. set (r' := foldl (best_step normalized) best l) in *.
    assert (Hstep : best_step normalized r' t =
              if Qlt_le_dec (snd r') (score_of normalized t)
              then (t, score_of normalized t) else r') by done.
    rewrite Hstep. clear Hstep.
    destruct (Qlt_le_dec (snd r') (score_of normalized t)) as [Hlt|Hle].
    + right. exists l, []. simpl. repeat split; try done.
      * eapply Qle_lt_trans; [|exact Hlt]. apply best_step_mono.
      * intros t' Ht'. eapply Qle_lt_trans; [|exact Hlt].
        by apply best_step_upper.
      * intros t' Ht'. by apply elem_of_nil in Ht'.
    + destruct IH as [[Heq Hall]|(l1 & l2 & Hl & Hsnd & Hbest & H1 & H2)].
      * left. split; [done|]. intros t' Ht'.
        apply elem_of_app in Ht' as [Ht'|Ht']; [by apply Hall|].
        apply list_elem_of_singleton in Ht' as ->. by rewrite <- Heq.
      * right. exists l1, (l2 ++ [t]). repeat split; try done.
        -- by rewrite Hl, <- app_assoc.
        -- intros t' Ht'. apply elem_of_app in Ht' as [Ht'|Ht']; [by apply H2|].
           by apply list_elem_of_singleton in Ht' as ->.
Qed.

(** ** Mapping entries *)

Lemma generateFieldMapping_lookup headers importType header :
  generateFieldMapping headers importType !! header =
    let best := best_match (getTargetFields importType) (normalize header) in
    if Qlt_le_dec (1 # 2) (snd best)
    then (if bool_decide (header ∈ headers) then Some (fst best) else None)
    else None.
Proof.
  rewrite generateFieldMapping_foldl, mapping_step_lookup. cbv zeta.
  by rewrite lookup_empty.
Qed.

Lemma generateFieldMapping_entry headers importType header targetField :
  generateFieldMapping headers importType !! header = Some targetField ->
  header ∈ headers /\
  exists l1 l2,
    getTargetFields importType = l1 ++ targetField :: l2 /\
    ((1 # 2) < score_of (normalize header) targetField)%Q /\
    (forall t, t ∈ l1 ->
       (score_of (normalize header) t < score_of (normalize header) targetField)%Q) /\
    (forall t, t ∈ l2 ->
       (score_of (normalize header) t <= score_of (normalize header) targetField)%Q).
Proof.
  rewrite generateFieldMapping_lookup. cbv zeta.
  destruct (Qlt_le_dec _ _) as [Hpass|_]; [|done].
  case_bool_decide as Hin; [|done]. intros [= <-]. split; [done|].
  rewrite best_match_foldl in *.
  destruct (best_step_first_greatest (normalize header)
              (getTargetFields importType) ("", 0%Q))
    as [[Heq _]|(l1 & l2 & Hl & Hsnd & _ & H1 & H2)].
  - rewrite Heq in Hpass. discriminate Hpass.
  - exists l1, l2. rewrite <- Hsnd. by repeat split.
Qed.

(** X4. Every entry of a generated mapping is keyed by a source header and
    holds a target field of the import kind: the first one, in schema order,
    of greatest score against the header, that score being above one half. *)
Theorem generateFieldMapping_sound
    (headers : list string) (importType : ImportType)
    (header targetField : string) :
  generateFieldMapping headers importType !! header = Some targetField ->
  header ∈ headers /\
  targetField ∈ getTargetFields importType /\
  exists l1 l2,
    getTargetFields importType = l1 ++ targetField :: l2 /\
    ((1 # 2) < calculateSimilarity (normalize header) (normalize targetField))%Q /\
    (forall t, t ∈ l1 ->
       (calculateSimilarity (normalize header) (normalize t)
        < calculateSimilarity (normalize header) (normalize targetField))%Q) /\
    (forall t, t ∈ l2 ->
       (calculateSimilarity (normalize header) (normalize t)
        <= calculateSimilarity (normalize header) (normalize targetField))%Q).
Proof.
  intros Hentry.
  apply generateFieldMapping_entry in Hentry
    as (Hin & l1 & l2 & Hl & Hrest).
  split; [done|]. split.
  - rewrite Hl. apply elem_of_app. right. left.
  - by exists l1, l2.
Qed.

Lemma generateFieldMapping_sound_witness :
  "Budget" ∈ ["Campaign"; "Budget"] /\
  "budget" ∈ getTargetFields CAMPAIGNS.
Proof.
  destruct (generateFieldMapping_sound ["Campaign"; "Budget"] CAMPAIGNS
              "Budget" "budget" eq_refl) as (H1 & H2 & _).
  exact (conj H1 H2).
Defined.

Lemma normalized_targets_distinct (importType : ImportType) :
  NoDup (map normalize (getTargetFields importType)).
Proof.
  destruct importType; refine (bool_decide_unpack _ _); vm_compute; exact I.
Qed.

Lemma NoDup_map_inj {X Y} (f : X -> Y) (l : list X) (x y : X) :
  NoDup (map f l) -> x ∈ l -> y ∈ l -> f x = f y -> x = y.
Proof.
  induction l as [|z l IH]; simpl; intros Hnd Hx Hy Hf.
  - by apply elem_of_nil in Hx.
  - apply NoDup_cons in Hnd as [Hz Hnd].
    apply elem_of_cons in Hx as [->|Hx]; apply elem_of_cons in Hy as [->|Hy];
      try done.
    + exfalso. apply Hz. rewrite Hf. by apply (list_elem_of_fmap_2 f).
    + exfalso. apply Hz. rewrite <- Hf. by apply (list_elem_of_fmap_2 f).
    + by apply IH.
Qed.

Lemma score_of_le_one normalized target : (score_of normalized target <= 1)%Q.
Proof. apply calculateSimilarity_range. Qed.

(** X5. A header that is a target field up to case, underscores and white
    space is mapped to that field. *)
Theorem generateFieldMapping_exact_name
    (headers : list string) (importType : ImportType) (header target : string) :
  header ∈ headers ->
  target ∈ getTargetFields importType ->
  normalize header = normalize target ->
  generateFieldMapping headers importType !! header = Some target.
Proof.
  intros Hin Htarget Hnorm.
  assert (Hone : (score_of (normalize header) target == 1)%Q).
  { unfold score_of. by apply calculateSimilarity_one. }
  assert (Hpass : ((1 # 2) < snd (best_match (getTargetFields importType)
                                    (normalize header)))%Q).
  { apply best_match_threshold. exists target. split; [done|].
    fold (score_of (normalize header) target). by rewrite Hone. }
  destruct (generateFieldMapping headers importType !! header) as [tf|] eqn:Hm.
  - f_equal.
    apply generateFieldMapping_entry in Hm
      as (_ & l1 & l2 & Hl & _ & H1 & H2).
    assert (Htf : (score_of (normalize header) tf == 1)%Q).
    { apply Qle_antisym; [apply score_of_le_one|].
      rewrite Hl in Htarget.
      apply elem_of_app in Htarget as [Ht|Ht].
      - rewrite <- Hone. apply Qlt_le_weak. by apply H1.
      - apply elem_of_cons in Ht as [->|Ht]; [by rewrite Hone|].
        rewrite <- Hone. by apply H2. }
    apply calculateSimilarity_one in Htf.
    apply (NoDup_map_inj normalize (getTargetFields importType)).
    + apply normalized_targets_distinct.
    + rewrite Hl. apply elem_of_app. right. left.
    + done.
    + congruence.
  - rewrite generateFieldMapping_lookup in Hm. cbv zeta in Hm.
    destruct (Qlt_le_dec _ _) as [_|Hle].
    + by rewrite bool_decide_eq_true_2 in Hm.
    + exfalso. by apply (Qle_not_lt _ _ Hle).
Qed.

Lemma generateFieldMapping_exact_name_witness :
  generateFieldMapping ["Start Date"; "BUDGET_TYPE"] CAMPAIGNS !! "Start Date"
  = Some "start_date".
Proof.
  apply (generateFieldMapping_exact_name ["Start Date"; "BUDGET_TYPE"]
           CAMPAIGNS "Start Date" "start_date").
  - left.
  - apply list_elem_of_In. simpl. tauto.
  - reflexivity.
Defined.

(** X6. The mapping depends on the set of headers only, not on their order
    or repetition. *)
Theorem generateFieldMapping_order_irrelevant
    (headers headers' : list string) (importType : ImportType) :
  (forall header, header ∈ headers <-> header ∈ headers') ->
  generateFieldMapping headers importType
  = generateFieldMapping headers' importType.
Proof.
  intros Hsame. apply map_eq. intros header.
  rewrite !generateFieldMapping_lookup. cbv zeta.
  by rewrite (bool_decide_ext _ _ (Hsame header)).
Qed.

Lemma generateFieldMapping_order_irrelevant_witness :
  generateFieldMapping ["name"; "budget"; "name"] KEYWORDS
  = generateFieldMapping ["budget"; "name"] KEYWORDS.
Proof.
  apply generateFieldMapping_order_irrelevant. intros header.
  rewrite !elem_of_cons, !elem_of_nil. tauto.
Defined.

(** ** The validation result, cell by cell *)

Lemma getFieldRange_type header importType :
  getFieldRange header importType = None \/
  getFieldType header importType = "number".
Proof.
  destruct (getFieldRange header importType) as [range|] eqn:Hr; [|by left].
  right. by eapply getFieldRange_numeric.
Qed.

Lemma validateCell_appends engine row importType rowNumber errors warnings
    colIndex header errors' warnings' :
  validateCell engine row importType rowNumber (errors, warnings)
    colIndex header = Ok (errors', warnings') ->
  errors' = errors ++ cell_errors engine importType rowNumber header
                        (index row colIndex) /\
  warnings' = warnings ++ cell_warnings importType rowNumber header
                            (index row colIndex).
Proof.
  unfold validateCell, cell_errors, cell_warnings.
  generalize (index row colIndex). intros value.
  destruct (is_empty value) eqn:Hempty; simpl.
  - intros [= <- <-]. split.
    + rewrite andb_true_r.
      destruct (isRequiredField header importType); simpl;
        by rewrite ?app_nil_r.
    + destruct value as [| | |n| | |]; simpl in *;
        first [discriminate Hempty | by rewrite app_nil_r].
  - rewrite andb_false_r. simpl.
    destruct (validateType engine value (getFieldType header importType))
      as [[|]|e] eqn:Hty; simpl; [| |done].
    + intros [= <- <-]. split; [by rewrite app_nil_r|].
      destruct value as [| | |n| | |]; simpl; try by rewrite app_nil_r.
      destruct (getFieldRange_type header importType) as [-> | ->].
      * destruct (String.eqb _ _); by rewrite app_nil_r.
      * simpl. destruct (getFieldRange header importType) as [range|];
          [|by rewrite app_nil_r].
        destruct (_ || _); [done|by rewrite app_nil_r].
    + intros [= <- <-]. split; [done|].
      destruct value as [| | |n| | |]; simpl; try by rewrite app_nil_r.
      destruct (getFieldRange_type header importType) as [-> | Hnum].
      * destruct (String.eqb _ _); by rewrite app_nil_r.
      * unfold validateType in Hty. rewrite Hnum in Hty. discriminate Hty.
Qed.

Lemma forEach_from_appends {X E W}
    (f : list E * list W -> nat -> X -> result (list E * list W))
    (g : nat -> X -> list E) (h : nat -> X -> list W) (l : list X) :
  (forall es ws i x es' ws',
     f (es, ws) i x = Ok (es', ws') ->
     es' = es ++ g i x /\ ws' = ws ++ h i x) ->
  forall i es ws es' ws',
    forEach_from f i l (es, ws) = Ok (es', ws') ->
    es' = es ++ concat (imap (fun j => g (i + j)) l) /\
    ws' = ws ++ concat (imap (fun j => h (i + j)) l).
Proof.
  intros Hf. induction l as [|x l IH]; intros i es ws es' ws' Hrun;
    simpl in Hrun.
  - injection Hrun as <- <-. by rewrite !app_nil_r.
  - destruct (f (es, ws) i x) as [[es1 ws1]|e] eqn:Hstep; simpl in Hrun;
      [|done].
    apply Hf in Hstep as [-> ->].
    apply IH in Hrun as [-> ->].
    rewrite !imap_cons. simpl. rewrite Nat.add_0_r, <- !app_assoc.
    split; do 2 f_equal; f_equal; apply imap_ext; intros j y _; simpl;
      by replace (i + S j) with (S (i + j)) by lia.
Qed.

Lemma validateRow_appends engine row headers importType k errors warnings
    errors' warnings' :
  validateRow engine row headers importType (Z.of_nat k + 1) errors warnings
    = Ok (errors', warnings') ->
  errors' = errors ++ row_errors engine importType headers k row /\
  warnings' = warnings ++ row_warnings importType headers k row.
Proof.
  intros Hrun. unfold validateRow in Hrun.
  apply (forEach_from_appends _
           (fun i header => cell_errors engine importType (Z.of_nat k + 1)
                              header (index row i))
           (fun i header => cell_warnings importType (Z.of_nat k + 1)
                              header (index row i))) in Hrun; [exact Hrun|].
  intros es ws i x es' ws'. apply validateCell_appends.
Qed.

Lemma missing_column_errors_filter data importType :
  missing_column_errors data importType =
    map missing_column_error
      (List.filter (fun field => negb (string_in field (headers data)))
         (getRequiredFields importType)).
Proof.
  unfold missing_column_errors.
  generalize (getRequiredFields importType). intros fields.
  assert (H : forall acc,
            foldl (fun errors field =>
                     if negb (string_in field (headers data))
                     then errors ++ [missing_column_error field]
                     else errors) acc fields
            = acc ++ map missing_column_error
                       (List.filter
                          (fun field => negb (string_in field (headers data)))
                          fields)).
  { induction fields as [|f l IH]; intros acc; simpl.
    - by rewrite app_nil_r.
    - rewrite IH. destruct (negb (string_in f (headers data))); simpl; [|done].
      by rewrite <- app_assoc. }
  apply (H []).
Qed.

Lemma validate_rows_appends engine data importType acc :
  validate_rows engine data importType = Ok acc ->
  fst acc =
    missing_column_errors data importType ++
    concat (imap (row_errors engine importType (headers data)) (rows data)) /\
  snd acc =
    concat (imap (row_warnings importType (headers data)) (rows data)).
Proof.
  unfold validate_rows. destruct acc as [errors warnings]. intros Hrun.
  apply (forEach_from_appends _
           (row_errors engine importType (headers data))
           (row_warnings importType (headers data))) in Hrun.
  - simpl in Hrun. exact Hrun.
  - intros es ws i x es' ws'. simpl. apply validateRow_appends.
Qed.

(** X7. The validation result, spelled out: the errors are those of the
    required columns missing from the headers (in schema order), followed,
    row by row and column by column, by the required-kind error and the
    type-kind error of each cell; the warnings are the range warnings of the
    cells in the same order. *)
Theorem performValidation_cell_by_cell
    (engine : Engine) (data : FileData) (importType : ImportType) :
  match performValidation engine data importType with
  | Ok r =>
      errors r =
        map missing_column_error
          (List.filter (fun field => negb (string_in field (headers data)))
             (getRequiredFields importType)) ++
        concat (imap (row_errors engine importType (headers data)) (rows data))
      /\
      warnings r =
        concat (imap (row_warnings importType (headers data)) (rows data))
  | Throw _ => True
  end.
Proof.
  rewrite performValidation_phases.
  destruct (validate_rows engine data importType) as [acc|e] eqn:Hrun; [|done].
  apply validate_rows_appends in Hrun as [He Hw]. simpl.
  by rewrite He, Hw, missing_column_errors_filter.
Qed.

(** ** Membership and order of the errors *)

Lemma elem_of_concat {X} (x : X) (ls : list (list X)) :
  x ∈ concat ls <-> exists l, l ∈ ls /\ x ∈ l.
Proof.
  rewrite list_elem_of_In, in_concat. split.
  - intros (l & Hl & Hx). exists l. by rewrite !list_elem_of_In.
  - intros (l & Hl & Hx). exists l. by rewrite <- !list_elem_of_In.
Qed.

Lemma elem_of_concat_imap {X Y} (g : nat -> X -> list Y) (l : list X) (y : Y) :
  y ∈ concat (imap g l) <-> exists i x, l !! i = Some x /\ y ∈ g i x.
Proof.
  rewrite elem_of_concat. split.
  - intros (b & Hb & Hy). apply elem_of_lookup_imap in Hb as (i & x & -> & Hx).
    by exists i, x.
  - intros (i & x & Hx & Hy). exists (g i x). split; [|done].
    by apply elem_of_lookup_imap_2.
Qed.

Lemma elem_of_row_errors engine importType headers k row e :
  e ∈ row_errors engine importType headers k row <->
  exists i header,
    headers !! i = Some header /\
    e ∈ cell_errors engine importType (Z.of_nat k + 1) header (index row i).
Proof. apply elem_of_concat_imap. Qed.

Lemma elem_of_row_warnings importType headers k row w :
  w ∈ row_warnings importType headers k row <->
  exists i header,
    headers !! i = Some header /\
    w ∈ cell_warnings importType (Z.of_nat k + 1) header (index row i).
Proof. apply elem_of_concat_imap. Qed.

Lemma cell_errors_row engine importType rowNumber header value e :
  e ∈ cell_errors engine importType rowNumber header value ->
  ve_row e = rowNumber /\ ve_column e = header /\ ve_value e = value /\
  (ve_type e = E_required /\ is_empty value = true
     /\ isRequiredField header importType = true
   \/ ve_type e = E_type /\ is_empty value = false
     /\ validateType engine value (getFieldType header importType) = Ok false).
Proof.
  unfold cell_errors. intros He. apply elem_of_app in He as [He|He].
  - destruct (isRequiredField header importType) eqn:Hreq; simpl in He;
      [|by apply elem_of_nil in He].
    destruct (is_empty value) eqn:Hempty; [|by apply elem_of_nil in He].
    apply list_elem_of_singleton in He as ->. simpl. auto 10.
  - destruct (is_empty value) eqn:Hempty; simpl in He;
      [by apply elem_of_nil in He|].
    destruct (validateType engine value (getFieldType header importType))
      as [[|]|]; try by apply elem_of_nil in He.
    apply list_elem_of_singleton in He as ->. simpl. auto 10.
Qed.

Lemma cell_warnings_row importType rowNumber header value w :
  w ∈ cell_warnings importType rowNumber header value ->
  exists n range,
    value = JNum n /\
    getFieldRange header importType = Some range /\
    number_lt n (Fin (range_min range)) || number_lt (Fin (range_max range)) n
      = true /\
    w = range_warning rowNumber header n range.
Proof.
  unfold cell_warnings. intros Hw.
  destruct value as [| | |n| | |]; try by apply elem_of_nil in Hw.
  destruct (getFieldRange header importType) as [range|];
    [|by apply elem_of_nil in Hw].
  destruct (_ || _) eqn:Hout; [|by apply elem_of_nil in Hw].
  apply list_elem_of_singleton in Hw as ->. by exists n, range.
Qed.

(** Blocks numbered from [i + 1] on, laid end to end, are in ascending
    order of their numbers. *)
Lemma numbered_blocks_sorted {X Y} (key : Y -> Z) (g : nat -> X -> list Y)
    (l : list X) : forall i,
  (forall j x y, l !! j = Some x -> y ∈ g (i + j) x ->
     key y = (Z.of_nat (i + j) + 1)%Z) ->
  StronglySorted (fun a b => (key a <= key b)%Z)
    (concat (imap (fun j => g (i + j)) l)) /\
  (forall y, y ∈ concat (imap (fun j => g (i + j)) l) ->
     (Z.of_nat i + 1 <= key y <= Z.of_nat (i + length l))%Z).
Proof.
  induction l as [|x l IH]; intros i Hkey.
  - simpl. split; [constructor|]. intros y Hy. by apply elem_of_nil in Hy.
  - rewrite imap_cons. simpl concat. rewrite Nat.add_0_r.
    assert (Hext : imap ((fun j => g (i + j)) ∘ S) l
                   = imap (fun j => g (S i + j)) l).
    { apply imap_ext. intros j y _. simpl.
      by replace (i + S j) with (S (i + j)) by lia. }
    rewrite Hext.
    destruct (IH (S i)) as [Hsorted Hrange].
    { intros j x' y Hx' Hy. replace (S i + j) with (i + S j) in * by lia.
      by apply (Hkey (S j) x' y). }
    assert (Hhead : forall y, y ∈ g i x -> key y = (Z.of_nat i + 1)%Z).
    { intros y Hy. specialize (Hkey 0 x y eq_refl).
      rewrite Nat.add_0_r in Hkey. by apply Hkey. }
    split.
    + apply StronglySorted_app_2.
      * intros y1 y2 Hy1 Hy2. rewrite (Hhead y1 Hy1).
        specialize (Hrange y2 Hy2). lia.
      * clear -Hhead. induction (g i x) as [|y b IHb]; constructor.
        -- apply IHb. intros y' Hy'. apply Hhead. by right.
        -- apply Forall_forall. intros y' Hy'.
           rewrite (Hhead y) by left. rewrite (Hhead y') by (by right). lia.
      * done.
    + intros y Hy. apply elem_of_app in Hy as [Hy|Hy].
      * rewrite (Hhead y Hy). simpl. lia.
      * specialize (Hrange y Hy). simpl. lia.
Qed.

Lemma performValidation_lists engine data importType r :
  performValidation engine data importType = Ok r ->
  errors r =
    map missing_column_error
      (List.filter (fun field => negb (string_in field (headers data)))
         (getRequiredFields importType)) ++
    concat (imap (row_errors engine importType (headers data)) (rows data)) /\
  warnings r =
    concat (imap (row_warnings importType (headers data)) (rows data)) /\
  summary r =
    {| vs_totalRows := totalRows data;
       validRows :=
         totalRows data - Z.of_nat (length (filter is_required (errors r)));
       invalidRows := Z.of_nat (length (filter is_required (errors r)));
       errorCount := Z.of_nat (length (errors r));
       warningCount := Z.of_nat (length (warnings r)) |} /\
  isValid r = (length (errors r) =? 0)%nat.
Proof.
  rewrite performValidation_phases.
  destruct (validate_rows engine data importType) as [acc|e] eqn:Hrun; [|done].
  intros [= <-]. apply validate_rows_appends in Hrun as [He Hw]. simpl.
  by rewrite He, Hw, missing_column_errors_filter.
Qed.

Lemma row_errors_key engine importType headers k row e :
  e ∈ row_errors engine importType headers k row ->
  ve_row e = (Z.of_nat k + 1)%Z.
Proof.
  intros He. apply elem_of_row_errors in He as (i & header & _ & He).
  by apply cell_errors_row in He as [-> _].
Qed.

Lemma row_warnings_key importType headers k row w :
  w ∈ row_warnings importType headers k row ->
  vw_row w = (Z.of_nat k + 1)%Z.
Proof.
  intros Hw. apply elem_of_row_warnings in Hw as (i & header & _ & Hw).
  by apply cell_warnings_row in Hw as (n & range & _ & _ & _ & ->).
Qed.

(** X8. Errors and warnings come in ascending row order: the header-level
    errors (row 0) first, then those of row 1, row 2 and so on; every row
    number lies between 0 (errors) or 1 (warnings) and the number of rows. *)
Theorem performValidation_row_order
    (engine : Engine) (data : FileData) (importType : ImportType) :
  match performValidation engine data importType with
  | Ok r =>
      StronglySorted (fun a b => (ve_row a <= ve_row b)%Z) (errors r) /\
      StronglySorted (fun a b => (vw_row a <= vw_row b)%Z) (warnings r) /\
      (forall e, e ∈ errors r ->
         (0 <= ve_row e <= Z.of_nat (length (rows data)))%Z) /\
      (forall w, w ∈ warnings r ->
         (1 <= vw_row w <= Z.of_nat (length (rows data)))%Z)
  | Throw _ => True
  end.
Proof.
  destruct (performValidation engine data importType) as [r|e] eqn:Hr; [|done].
  apply performValidation_lists in Hr as (He & Hw & _).
  destruct (numbered_blocks_sorted ve_row
              (row_errors engine importType (headers data)) (rows data) 0)
    as [Hes Her].
  { intros j x y _ Hy. by apply row_errors_key in Hy. }
  destruct (numbered_blocks_sorted vw_row
              (row_warnings importType (headers data)) (rows data) 0)
    as [Hws Hwr].
  { intros j x y _ Hy. by apply row_warnings_key in Hy. }
  simpl in Hes, Her, Hws, Hwr.
  assert (Hmissing : forall e,
            e ∈ map missing_column_error
                  (List.filter
                     (fun field => negb (string_in field (headers data)))
                     (getRequiredFields importType)) -> ve_row e = 0%Z).
  { intros e Hin. apply list_elem_of_fmap in Hin as (f & -> & _). done. }
  rewrite He, Hw. split; [|split; [done|split]].
  - apply StronglySorted_app_2; [| |done].
    + intros e1 e2 H1 H2. rewrite (Hmissing e1 H1).
      specialize (Her e2 H2). lia.
    + generalize Hmissing. generalize (map missing_column_error
        (List.filter (fun field => negb (string_in field (headers data)))
           (getRequiredFields importType))).
      intros l Hl. induction l as [|e1 l IH]; constructor.
      * apply IH. intros e' He'. apply Hl. by right.
      * apply Forall_forall. intros e' He'.
        rewrite (Hl e1) by left. rewrite (Hl e') by (by right). lia.
  - intros e0 Hin. apply elem_of_app in Hin as [Hin|Hin].
    + rewrite (Hmissing _ Hin). lia.
    + specialize (Her _ Hin). lia.
  - intros w Hin. specialize (Hwr _ Hin). lia.
Qed.

(** The errors of a validation result are exactly these: one for each
    required column that the headers lack; one of kind required for each
    cell of a required column that is null, undefined or the empty string;
    one of kind type for each other cell that fails the type check of its
    column. *)
Lemma performValidation_errors_membership
    (engine : Engine) (data : FileData) (importType : ImportType) :
  match performValidation engine data importType with
  | Ok r =>
      forall e, e ∈ errors r <->
        (exists field,
           field ∈ getRequiredFields importType /\
           (field ∉ headers data) /\
           e = missing_column_error field) \/
        (exists k row i header,
           rows data !! k = Some row /\
           headers data !! i = Some header /\
           (isRequiredField header importType = true /\
            is_empty (index row i) = true /\
            e = required_error (Z.of_nat k + 1) header (index row i)
            \/
            is_empty (index row i) = false /\
            validateType engine (index row i) (getFieldType header importType)
              = Ok false /\
            e = type_error (Z.of_nat k + 1) header (index row i)
                  (getFieldType header importType)))
  | Throw _ => True
  end.
Proof.
  destruct (performValidation engine data importType) as [r|e'] eqn:Hr; [|done].
  apply performValidation_lists in Hr as (He & _). intros e.
  rewrite He, elem_of_app, elem_of_concat_imap.
  assert (Hm :
    e ∈ map missing_column_error
          (List.filter (fun field => negb (string_in field (headers data)))
             (getRequiredFields importType)) <->
    exists field,
      field ∈ getRequiredFields importType /\
      (field ∉ headers data) /\ e = missing_column_error field).
  { rewrite list_elem_of_fmap. split.
    - intros (field & -> & Hin). exists field.
      apply list_elem_of_In, filter_In in Hin as [Hin Hmiss].
      repeat split; [by apply list_elem_of_In|].
      intros Hh. apply string_in_elem in Hh. by rewrite Hh in Hmiss.
    - intros (field & Hin & Hmiss & ->). exists field. split; [done|].
      apply list_elem_of_In, filter_In. split; [by apply list_elem_of_In|].
      destruct (string_in field (headers data)) eqn:Hs; [|done].
      by apply string_in_elem in Hs. }
  assert (Hc :
    (exists k row, rows data !! k = Some row /\
       e ∈ row_errors engine importType (headers data) k row) <->
    exists k row i header,
      rows data !! k = Some row /\
      headers data !! i = Some header /\
      (isRequiredField header importType = true /\
       is_empty (index row i) = true /\
       e = required_error (Z.of_nat k + 1) header (index row i)
       \/
       is_empty (index row i) = false /\
       validateType engine (index row i) (getFieldType header importType)
         = Ok false /\
       e = type_error (Z.of_nat k + 1) header (index row i)
             (getFieldType header importType))).
  { split.
    - intros (k & row & Hrow & Hin).
      apply elem_of_row_errors in Hin as (i & header & Hh & Hin).
      exists k, row, i, header. repeat split; try done.
      unfold cell_errors in Hin. apply elem_of_app in Hin as [Hin|Hin].
      + left. destruct (isRequiredField header importType); simpl in Hin;
          [|by apply elem_of_nil in Hin].
        destruct (is_empty (index row i)); [|by apply elem_of_nil in Hin].
        by apply list_elem_of_singleton in Hin.
      + right. destruct (is_empty (index row i)); simpl in Hin;
          [by apply elem_of_nil in Hin|].
        destruct (validateType engine (index row i)
                    (getFieldType header importType)) as [[|]|];
          try by apply elem_of_nil in Hin.
        by apply list_elem_of_singleton in Hin.
    - intros (k & row & i & header & Hrow & Hh & Hcase).
      exists k, row. split; [done|]. apply elem_of_row_errors.
      exists i, header. split; [done|]. unfold cell_errors.
      apply elem_of_app.
      destruct Hcase as [(Hreq & Hempty & ->)|(Hempty & Hty & ->)].
      + left. rewrite Hreq, Hempty. simpl. left.
      + right. rewrite Hempty, Hty. simpl. left. }
  split; (intros [H|H]; [left; by apply Hm | right; by apply Hc]).
Qed.

(** The warnings of a validation result are exactly the range warnings of
    the cells that hold a number outside the range of their column. *)
Lemma performValidation_warnings_membership
    (engine : Engine) (data : FileData) (importType : ImportType)
    (r : ValidationResult) :
  performValidation engine data importType = Ok r ->
  forall w, w ∈ warnings r <->
    exists k row i header n range,
      rows data !! k = Some row /\
      headers data !! i = Some header /\
      index row i = JNum n /\
      getFieldRange header importType = Some range /\
      number_lt n (Fin (range_min range))
        || number_lt (Fin (range_max range)) n = true /\
      w = range_warning (Z.of_nat k + 1) header n range.
Proof.
  intros Hr. apply performValidation_lists in Hr as (_ & Hw & _). intros w.
  rewrite Hw, elem_of_concat_imap. split.
  - intros (k & row & Hrow & Hin).
    apply elem_of_row_warnings in Hin as (i & header & Hh & Hin).
    apply cell_warnings_row in Hin as (n & range & Hn & Hrange & Hout & ->).
    by exists k, row, i, header, n, range.
  - intros (k & row & i & header & n & range & Hrow & Hh & Hn & Hr' & Hout & ->).
    exists k, row. split; [done|]. apply elem_of_row_warnings.
    exists i, header. split; [done|]. unfold cell_warnings.
    rewrite Hn, Hr', Hout. left.
Qed.

Lemma kinds_partition (l : list ValidationError) :
  (forall e, e ∈ l -> ve_type e = E_required \/ ve_type e = E_type) ->
  length l = length (filter is_required l) + length (filter is_type_error l).
Proof.
  induction l as [|e l IH]; intros Hkinds; [done|].
  assert (IH' := IH (fun e' He' => Hkinds e' (list_elem_of_further _ _ _ He'))).
  destruct (Hkinds e) as [He|He]; [left| |].
  - assert (H1 : is_required e) by (unfold is_required; by rewrite He).
    assert (H2 : ~ is_type_error e).
    { unfold is_type_error. rewrite He. simpl. tauto. }
    rewrite filter_cons_True by exact H1.
    rewrite filter_cons_False by exact H2.
    simpl. lia.
  - assert (H1 : ~ is_required e).
    { unfold is_required. rewrite He. simpl. tauto. }
    assert (H2 : is_type_error e) by (unfold is_type_error; by rewrite He).
    rewrite filter_cons_False by exact H1.
    rewrite filter_cons_True by exact H2.
    simpl. lia.
Qed.

(** X9. Only the kinds required and type are ever emitted (never format,
    range or duplicate); the summary's [validRows] and [invalidRows] add up
    to [totalRows], [errorCount] is [invalidRows] plus the number of type
    errors, and the result is valid exactly when [errorCount] is 0. *)
Theorem performValidation_summary
    (engine : Engine) (data : FileData) (importType : ImportType) :
  match performValidation engine data importType with
  | Ok r =>
      (forall e, e ∈ errors r -> ve_type e = E_required \/ ve_type e = E_type) /\
      (validRows (summary r) + invalidRows (summary r)
       = vs_totalRows (summary r))%Z /\
      vs_totalRows (summary r) = totalRows data /\
      errorCount (summary r)
        = (invalidRows (summary r)
           + Z.of_nat (length (filter is_type_error (errors r))))%Z /\
      warningCount (summary r) = Z.of_nat (length (warnings r)) /\
      (isValid r = true <-> errorCount (summary r) = 0%Z) /\
      (isValid r = true <-> errors r = [])
  | Throw _ => True
  end.
Proof.
  destruct (performValidation engine data importType) as [r|e'] eqn:Hr; [|done].
  assert (Hkinds : forall e, e ∈ errors r ->
            ve_type e = E_required \/ ve_type e = E_type).
  { intros e He.
    pose proof (performValidation_errors_membership engine data importType) as H.
    rewrite Hr in H. apply H in He
      as [(f & _ & _ & ->)|(k & row & i & h & _ & _ & [(_ & _ & ->)|(_ & _ & ->)])];
      auto. }
  apply performValidation_lists in Hr as (_ & _ & Hs & Hv).
  pose proof (kinds_partition (errors r) Hkinds) as Hlen.
  rewrite Hs, Hv. simpl.
  set (nreq := length (filter is_required (errors r))) in *.
  set (nty := length (filter is_type_error (errors r))) in *.
  split; [done|]. split; [lia|]. split; [done|]. split; [lia|].
  split; [done|]. split; [|split].
  - rewrite Nat.eqb_eq. lia.
  - rewrite Nat.eqb_eq. intros H. destruct (errors r); [done|simpl in H; lia].
  - intros ->. done.
Qed.

(** ** When validation throws *)

Lemma forEach_from_throws {St X} (f : St -> nat -> X -> result St)
    (l : list X) : forall i j x,
  l !! j = Some x ->
  (forall s, is_ok (f s (i + j) x) = false) ->
  forall s, is_ok (forEach_from f i l s) = false.
Proof.
  induction l as [|y l IH]; intros i j x Hx Hf s; [done|].
  simpl. destruct j as [|j]; simpl in Hx.
  - injection Hx as ->. specialize (Hf s). rewrite Nat.add_0_r in Hf.
    by destruct (f s i x).
  - destruct (f s i y) as [s'|e]; [|done]. simpl.
    apply (IH (S i) j x Hx). intros s0.
    replace (S i + j) with (i + S j) by lia. apply Hf.
Qed.

Lemma validateCell_throws engine row importType rowNumber acc colIndex header :
  is_empty (index row colIndex) = false ->
  is_ok (validateType engine (index row colIndex)
           (getFieldType header importType)) = false ->
  is_ok (validateCell engine row importType rowNumber acc colIndex header)
    = false.
Proof.
  intros Hempty Hty. unfold validateCell. destruct acc as [errors warnings].
  rewrite Hempty. simpl.
  by destruct (validateType engine (index row colIndex)
                 (getFieldType header importType)).
Qed.

(** X10. Validation is not fail-soft on a cell that cannot be converted: if
    some non-empty cell under a header makes the type check of its column
    throw (an object with an own [toString] data property in a number or date
    column, say), [performValidation] throws. *)
Theorem performValidation_throws
    (engine : Engine) (data : FileData) (importType : ImportType)
    (k : nat) (row : list jsval) (i : nat) (header : string) :
  rows data !! k = Some row ->
  headers data !! i = Some header ->
  is_empty (index row i) = false ->
  is_ok (validateType engine (index row i) (getFieldType header importType))
    = false ->
  exists e, performValidation engine data importType = Throw e.
Proof.
  intros Hrow Hh Hempty Hty.
  assert (Hrows : is_ok (validate_rows engine data importType) = false).
  { unfold validate_rows.
    apply (forEach_from_throws _ (rows data) 0 k row Hrow). intros acc. simpl.
    unfold validateRow.
    apply (forEach_from_throws _ (headers data) 0 i header Hh). intros acc'.
    simpl. by apply validateCell_throws. }
  rewrite performValidation_phases.
  destruct (validate_rows engine data importType) as [acc|e]; [done|].
  by exists e.
Qed.

Lemma performValidation_throws_witness :
  exists e, performValidation rejecting_engine toString_sheet CAMPAIGNS = Throw e.
Proof.
  apply (performValidation_throws rejecting_engine toString_sheet CAMPAIGNS
           0 [JObj [("toString", JNum (Fin 1))]] 0 "budget");
    reflexivity.
Defined.

(** ** The errors and the progress reports of an import *)

Lemma import_loop_errors client_post upload mapping onProgress totalRows
    (indices : list nat) : forall result log,
  callback_returns onProgress ->
  exists new,
    snd (foldl (import_row client_post upload mapping onProgress totalRows)
           (result, log) indices) = log ++ new /\
    length (submissions new) = length indices /\
    ir_errors
      (fst (foldl (import_row client_post upload mapping onProgress totalRows)
              (result, log) indices))
    = ir_errors result
      ++ omap (failure_entry upload) (zip indices (submissions new)).
Proof.
  induction indices as [|i indices IH]; intros result log Hcb.
  - exists []. simpl. by rewrite !app_nil_r.
  - destruct (import_row_spec client_post upload mapping onProgress
                totalRows result log i Hcb)
      as (outcome & new1 & Hrow & _ & Hsub1 & _).
    change (foldl ?f ?a (i :: indices)) with (foldl f (f a i) indices).
    rewrite Hrow.
    match goal with
    | |- context [foldl _ (?r1, _) indices] =>
        destruct (IH r1 (log ++ new1) Hcb) as (new2 & Hlog & Hlen & Herr)
    end.
    exists (new1 ++ new2). rewrite Hlog, Herr, submissions_app, Hsub1.
    rewrite <- app_assoc. split; [done|]. split; [simpl; by rewrite Hlen|].
    change ([outcome] ++ submissions new2) with (outcome :: submissions new2).
    cbn [zip zip_with]. 
    assert (Hcons : forall io l,
              omap (failure_entry upload) (io :: l) =
                match failure_entry upload io with
                | Some e => e :: omap (failure_entry upload) l
                | None => omap (failure_entry upload) l
                end) by done.
    rewrite Hcons. unfold failure_entry at 2. simpl.
    destruct outcome as [recordId|error]; simpl.
    + by destruct (truthy recordId).
    + by rewrite <- app_assoc.
Qed.

(** X11. The error list of an import names, in order, exactly the rows whose
    submission failed: each with its 1-based row number, the row's cells and
    the message of the error (or "Unknown error" when the thrown value is no
    [Error]). *)
Theorem performImport_errors
    (client_post : list event -> string -> gmap string jsval -> result jsval)
    (upload : FileUpload) (mapping : gmap string string)
    (onProgress : option (list event -> Q -> result unit)) (log : list event) :
  callback_returns onProgress ->
  exists new,
    snd (performImport client_post upload mapping onProgress log) = log ++ new /\
    length (submissions new) = length (rows (fu_data upload)) /\
    ir_errors (fst (performImport client_post upload mapping onProgress log))
    = omap (failure_entry upload)
        (zip (seq 0 (length (rows (fu_data upload)))) (submissions new)).
Proof.
  intros Hcb. unfold performImport.
  match goal with
  | |- context [foldl ?f (?r0, log) ?l] =>
      destruct (import_loop_errors client_post upload mapping onProgress
                  (length (rows (fu_data upload))) l r0 log Hcb)
        as (new & Hlog & Hlen & Herr);
      destruct (foldl f (r0, log) l) as [result log'] eqn:Hfold
  end.
  simpl in *. exists new. rewrite length_seq in Hlen. by repeat split.
Qed.

Lemma performImport_errors_witness :
  exists new,
    snd (performImport second_fails campaign_upload campaign_mapping None [])
      = [] ++ new /\
    length (submissions new) = length (rows (fu_data campaign_upload)) /\
    ir_errors (fst (performImport second_fails campaign_upload
                      campaign_mapping None []))
    = omap (failure_entry campaign_upload)
        (zip (seq 0 (length (rows (fu_data campaign_upload))))
           (submissions new)).
Proof.
  exact (performImport_errors second_fails campaign_upload campaign_mapping
           None [] no_callback_returns).
Defined.

(** ** Fail-soft validation *)

(** C5 (as amended). Validation is fail-soft on every table whose cells
    convert to a primitive: for every such table (rows may be shorter than
    the header list, cells may be of any primitive type, numbers and dates
    may be unparseable, arrays and objects may occur as long as [ToString]
    returns on them) and every import kind, [performValidation] returns a
    [ValidationResult] and does not throw, and every detected problem appears
    as a structured entry of that result: each required column missing
    from the headers, each empty cell of a required column and each cell
    failing the type check of its column (a check that itself returns) as an
    entry of [errors], each number outside the range of its column as an
    entry of [warnings]; the two lists hold nothing else. *)
Theorem performValidation_fail_soft
    (engine : Engine) (data : FileData) (importType : ImportType) :
  (forall row v, row ∈ rows data -> v ∈ row -> converts engine v) ->
  exists r,
    performValidation engine data importType = Ok r /\
    (* every missing required column is reported *)
    (forall field,
       field ∈ getRequiredFields importType -> field ∉ headers data ->
       {| ve_row := 0; ve_column := field; ve_value := JNull;
          ve_message := "Missing required column: " +:+ field;
          ve_type := E_required |} ∈ errors r) /\
    (forall k row i header,
       rows data !! k = Some row -> headers data !! i = Some header ->
       (* every empty cell of a required column is reported *)
       (isRequiredField header importType = true ->
        is_empty (index row i) = true ->
        {| ve_row := Z.of_nat k + 1; ve_column := header;
           ve_value := index row i;
           ve_message := "Required field is empty";
           ve_type := E_required |} ∈ errors r) /\
       (* the type check of every other cell returns, and a failed one is
          reported *)
       (is_empty (index row i) = false ->
        exists ok,
          validateType engine (index row i) (getFieldType header importType)
            = Ok ok /\
          (ok = false ->
           {| ve_row := Z.of_nat k + 1; ve_column := header;
              ve_value := index row i;
              ve_message :=
                "Invalid type. Expected " +:+ getFieldType header importType;
              ve_type := E_type |} ∈ errors r)) /\
       (* every number outside the range of its column is reported *)
       (forall n range,
          index row i = JNum n ->
          getFieldRange header importType = Some range ->
          number_lt n (Fin (range_min range))
            || number_lt (Fin (range_max range)) n = true ->
          {| vw_row := Z.of_nat k + 1; vw_column := header;
             vw_value := JNum n;
             vw_message := "Value outside expected range ("
                           +:+ range_text range +:+ ")" |} ∈ warnings r)) /\
    (* and nothing else is *)
    (forall e, e ∈ errors r ->
       (exists field,
          field ∈ getRequiredFields importType /\ (field ∉ headers data) /\
          e = missing_column_error field) \/
       (exists k row i header,
          rows data !! k = Some row /\ headers data !! i = Some header /\
          (isRequiredField header importType = true /\
           is_empty (index row i) = true /\
           e = required_error (Z.of_nat k + 1) header (index row i)
           \/
           is_empty (index row i) = false /\
           validateType engine (index row i) (getFieldType header importType)
             = Ok false /\
           e = type_error (Z.of_nat k + 1) header (index row i)
                 (getFieldType header importType)))) /\
    (forall w, w ∈ warnings r ->
       exists k row i header n range,
         rows data !! k = Some row /\ headers data !! i = Some header /\
         index row i = JNum n /\
         getFieldRange header importType = Some range /\
         number_lt n (Fin (range_min range))
           || number_lt (Fin (range_max range)) n = true /\
         w = range_warning (Z.of_nat k + 1) header n range).
Proof.
  intros Hc.
  destruct (performValidation_returns engine data importType Hc) as [r Hr].
  exists r. split; [exact Hr|].
  pose proof (performValidation_errors_membership engine data importType) as He.
  rewrite Hr in He.
  pose proof (performValidation_warnings_membership engine data importType r Hr)
    as Hw.
  split; [|split; [|split]].
  - intros field Hin Hmiss. apply He. left. by exists field.
  - intros k row i header Hrow Hh. split; [|split].
    + intros Hreq Hempty. apply He. right. exists k, row, i, header.
      split; [done|]. split; [done|]. by left.
    + intros Hempty.
      destruct (validateType_returns engine (index row i)
                  (getFieldType header importType)) as [ok Hok].
      { apply converts_index. intros v Hv. apply (Hc row v); [|done].
        by eapply list_elem_of_lookup_2. }
      exists ok. split; [done|]. intros ->. apply He. right.
      exists k, row, i, header. split; [done|]. split; [done|]. by right.
    + intros n range Hn Hrange Hout. apply Hw.
      by exists k, row, i, header, n, range.
  - intros e Hin. by apply He.
  - intros w Hin. by apply Hw.
Qed.

Lemma performValidation_fail_soft_witness :
  exists r,
    performValidation rejecting_engine messy_sheet CAMPAIGNS = Ok r /\
    type_error 1 "budget" (JStr "abc") "number" ∈ errors r /\
    required_error 3 "name" JNull ∈ errors r.
Proof.
  destruct (performValidation_fail_soft rejecting_engine messy_sheet CAMPAIGNS)
    as (r & Hr & _ & Hcells & _).
  { intros row v Hrow Hv. simpl in Hrow.
    repeat (apply elem_of_cons in Hrow as [->|Hrow];
            [repeat (apply elem_of_cons in Hv as [->|Hv]; [reflexivity|]);
             by apply elem_of_nil in Hv|]).
    by apply elem_of_nil in Hrow. }
  exists r. split; [exact Hr|]. split.
  - destruct (Hcells 0 [JStr "spring"; JStr "abc"; JStr "someday"] 1 "budget"
                eq_refl eq_refl) as (_ & Hty & _).
    destruct (Hty eq_refl) as (ok & Hok & Hin).
    apply Hin. vm_compute in Hok. by injection Hok as <-.
  - destruct (Hcells 2 [JNull; JArr [JNum (Fin 1); JNull];
                        JObj [("a", JBool true)]] 0 "name"
                eq_refl eq_refl) as (Hreq & _).
    by apply Hreq.
Defined.

(** The claim C10 as stated fails: when the progress callback throws, a row
    whose submission resolves with a falsy id is counted as failed and gets an
    entry in the errors.  Here all three submissions resolve with the empty
    id; [failed] is 3 and the errors name the three rows. *)
Lemma falsy_row_counted_failed :
  let run :=
    performImport empty_ids campaign_upload campaign_mapping
      (Some throwing_callback) [] in
  submissions (snd run) = [Ok (JStr ""); Ok (JStr ""); Ok (JStr "")] /\
  imported (fst run) = 0%Z /\
  failed (fst run) = 3%Z /\
  success (fst run) = false /\
  map ie_row (ir_errors (fst run)) = [1%Z; 2%Z; 3%Z].
Proof. vm_compute. repeat split; reflexivity. Qed.
